(** * plotGantt.py: the task list behind the Gantt chart

    A shallow embedding of the parts of [plotGantt.py] that build and check
    the task list: the parser ([parseTasks]), the deduplicator
    ([findTaskInList], [removeDuplicateTasks]), the consolidator
    ([consolidateSiblingTasks]), the overlap checker
    ([checkForOverlappingTasks]) and the argument reader ([readArgs]).
    The drawing code (matplotlib) is not embedded: the run of the script
    ([run]) takes what its calls answer for given.

    Numbers are Python floats, that is IEEE 754 binary64: they are Rocq's
    primitive floats, with [PrimFloat.eqb] for [==], [PrimFloat.ltb] for [<]
    and [PrimFloat.add] for [+]. *)

From Stdlib Require Import ZArith List String Ascii Bool Lia Floats Uint63 Sorted.
Import ListNotations.

Set Warnings "-register-all,-inexact-float".

Open Scope string_scope.
Open Scope list_scope.

(** ** Failures

    The script never catches an exception: a failure ends the run.
    [exit(5)] raises [SystemExit]; the constructor keeps the first line the
    script prints on the way to it, which tells the exit sites apart. *)

Inductive failure : Type :=
| TypeError
| ValueError
| SystemExit (code : Z) (diagnostic : string).

Inductive result (A : Type) : Type :=
| Ok (a : A)
| Raise (e : failure).

Arguments Ok {A} a.
Arguments Raise {A} e.

Definition bind {A B : Type} (c : result A) (k : A -> result B) : result B :=
  match c with
  | Ok a => k a
  | Raise e => Raise e
  end.

Notation "x <- c ;; k" := (bind c (fun x => k))
  (at level 61, c at next level, right associativity).
Notation "c ;;; k" := (bind c (fun _ => k))
  (at level 61, right associativity).

Definition failed {A : Type} (r : result A) : Prop := exists e, r = Raise e.

(** ** The task record (class [task], lines 57-68) *)

Inductive task : Type := mkTask {
  tBegin : float;
  tEnd : float;
  batchSize : float;
  order : string;
  machine : string;
  processingUnit : string;
  operation : string;
  subtasks : list task
}.

(** [task()]: the class attributes are the defaults of a new instance. *)
Definition newTask : task := mkTask 0 0 0 "" "" "" "" [].

(** ** Strings

    [s.split(sep)] with a separator of one character: one field per
    occurrence of the separator plus one, empty fields kept. *)

Fixpoint split (sep : ascii) (s : string) : list string :=
  match s with
  | EmptyString => [EmptyString]
  | String c rest =>
      if Ascii.eqb c sep then EmptyString :: split sep rest
      else match split sep rest with
           | w :: ws => String c w :: ws
           | [] => [String c EmptyString]
           end
  end.

Definition newline : string := String "010"%char EmptyString.

(** ** Parser (lines 137-184)

    [float(...)] is the builtin; the parser is parametrised by it, [None]
    standing for its [ValueError]. The file is the list of lines that
    [for line in f] yields, each with its line terminator. *)

Section Parser.

Variable pyfloat : string -> option float.

Definition to_float (s : string) : result float :=
  match pyfloat s with
  | Some x => Ok x
  | None => Raise ValueError
  end.

(** The argument is the list of words, so [line + " HAS WRONG ..."] adds a
    string to a list: the [print] raises [TypeError] and [exit(5)] is not
    reached. *)
Definition checkLineStandardCompliance (line : list string) : result unit :=
  if negb (List.length line =? 5)%nat then Raise TypeError else Ok tt.

Definition checkMTSinfoCompliance (info : list string) : result unit :=
  if negb (List.length info =? 3)%nat
  then Raise (SystemExit 5
         "MTS INFO DOES NOT ADHERE TO MY STANDARD: processingUnit_machine_order")
  else Ok tt.

(** The body of [for line in f] (lines 169-183). The indices are in range
    once the length checks have passed. *)
Definition parseLine (mode line : string) : result task :=
  let words := split " " line in
  checkLineStandardCompliance words ;;;
  b <- to_float (nth 1 words "") ;;
  e <- to_float (nth 2 words "") ;;
  let op := nth 3 words "" in
  bs <- to_float (nth 4 words "") ;;
  let m := nth 0 words "" in
  if (mode =? "MTS")%string then
    let mtsInfo := split "_" (nth 0 words "") in
    checkMTSinfoCompliance mtsInfo ;;;
    Ok (mkTask b e bs (nth 2 mtsInfo "") (nth 1 mtsInfo "") (nth 0 mtsInfo "")
               op [])
  else
    Ok (mkTask b e bs "" m "" op []).

Fixpoint parseLoop (mode : string) (f : list string) (allTasks : list task)
  : result (list task) :=
  match f with
  | [] => Ok allTasks
  | line :: rest =>
      thisTask <- parseLine mode line ;;
      parseLoop mode rest (allTasks ++ [thisTask])
  end.

Definition parseTasks (mode : string) (f : list string) : result (list task) :=
  parseLoop mode f [].

End Parser.

(** *** A table of [float(...)] for running the parser

    [decimal_float] is the builtin on plain decimal literals
    ([[+-]digits[.digits]], white space around them stripped) whose digits
    make an integer below 2^53 with at most 15 of them after the point: there
    one correctly rounded division gives the nearest binary64. It answers
    [None] everywhere else, so it only serves to run the parser on concrete
    lines of that shape. *)

Definition is_space (c : ascii) : bool :=
  let n := nat_of_ascii c in
  ((9 <=? n) && (n <=? 13))%nat || (n =? 32)%nat.

Fixpoint lstrip (cs : list ascii) : list ascii :=
  match cs with
  | c :: rest => if is_space c then lstrip rest else cs
  | [] => []
  end.

Definition strip (cs : list ascii) : list ascii :=
  rev (lstrip (rev (lstrip cs))).

Definition digit_of (c : ascii) : option Z :=
  let n := Z.of_nat (nat_of_ascii c) in
  if ((48 <=? n) && (n <=? 57))%Z then Some (n - 48)%Z else None.

(** Reads a run of digits: the number read so far, how many digits, and what
    follows the run. *)
Fixpoint read_digits (cs : list ascii) (acc : Z) (count : nat)
  : Z * nat * list ascii :=
  match cs with
  | c :: rest =>
      match digit_of c with
      | Some d => read_digits rest (10 * acc + d)%Z (S count)
      | None => (acc, count, cs)
      end
  | [] => (acc, count, [])
  end.

Definition decimal_magnitude (cs : list ascii) : option float :=
  let '(ipart, icount, rest) := read_digits cs 0%Z 0%nat in
  let '(mant, fcount, rest') :=
    match rest with
    | "."%char :: frac =>
        let '(m, k, r) := read_digits frac ipart 0%nat in (m, k, r)
    | _ => (ipart, 0%nat, rest)
    end in
  match rest' with
  | [] =>
      if ((0 <? icount + fcount)%nat && (mant <? 2 ^ 53)%Z && (fcount <=? 15)%nat)
      then Some (PrimFloat.div (PrimFloat.of_uint63 (Uint63.of_Z mant))
                               (PrimFloat.of_uint63
                                  (Uint63.of_Z (10 ^ Z.of_nat fcount))))
      else None
  | _ :: _ => None
  end.

Definition decimal_float (s : string) : option float :=
  match strip (list_ascii_of_string s) with
  | "-"%char :: cs => option_map PrimFloat.opp (decimal_magnitude cs)
  | "+"%char :: cs => decimal_magnitude cs
  | cs => decimal_magnitude cs
  end.

(** [float("nan")] is the NaN; [literal_float] is [decimal_float] with that
    one literal more. *)
Definition literal_float (s : string) : option float :=
  if (string_of_list_ascii (strip (list_ascii_of_string s)) =? "nan")%string
  then Some PrimFloat.nan
  else decimal_float s.

(** ** Deduplicator (lines 187-219) *)

(** The test of [findTaskInList]: [t] is the task of the list, [task0] the
    one looked for. *)
Definition sameFields (t task0 : task) : bool :=
  PrimFloat.eqb (tBegin t) (tBegin task0)
  && PrimFloat.eqb (tEnd t) (tEnd task0)
  && PrimFloat.eqb (batchSize t) (batchSize task0)
  && (order t =? order task0)%string
  && (machine t =? machine task0)%string
  && (processingUnit t =? processingUnit task0)%string
  && (operation t =? operation task0)%string.

Fixpoint findTaskInList (task0 : task) (taskList : list task) : bool :=
  match taskList with
  | [] => false
  | t :: rest => if sameFields t task0 then true else findTaskInList task0 rest
  end.

(** The loop of lines 214-217, [uniqueTasks] being its state. *)
Fixpoint dedupLoop (tasks uniqueTasks : list task) : list task :=
  match tasks with
  | [] => uniqueTasks
  | t :: rest =>
      let haveSeenT := findTaskInList t uniqueTasks in
      dedupLoop rest (if negb haveSeenT then uniqueTasks ++ [t] else uniqueTasks)
  end.

Definition removeDuplicateTasks (tasks : list task) : list task :=
  if (List.length tasks <? 2)%nat then tasks else dedupLoop tasks [].

(** ** Time slots

    A slot is the tuple [(ct.tBegin, ct.tEnd)]. Tuples compare item by item:
    [==] holds when every item is [==]; [<] is decided by the first item that
    is not [==]. Python takes an object for equal to itself before it asks
    [==], in [in] and between the items of tuples; for floats that differs
    from [==] on NaN only, so the slots below are those of the code when no
    time is NaN. *)

Definition slot : Type := (float * float)%type.

Definition slotOf (ct : task) : slot := (tBegin ct, tEnd ct).

Definition slot_eqb (a b : slot) : bool :=
  PrimFloat.eqb (fst a) (fst b) && PrimFloat.eqb (snd a) (snd b).

Definition slot_ltb (a b : slot) : bool :=
  if negb (PrimFloat.eqb (fst a) (fst b)) then PrimFloat.ltb (fst a) (fst b)
  else if negb (PrimFloat.eqb (snd a) (snd b)) then PrimFloat.ltb (snd a) (snd b)
  else false.

(** [thisSlot in slots] *)
Definition slot_in (thisSlot : slot) (slots : list slot) : bool :=
  existsb (fun s => slot_eqb s thisSlot) slots.

(** Lines 232-235 and 290-293. *)
Definition compatibleWith (m : string) (tasks : list task) : list task :=
  filter (fun t => (m =? machine t)%string) tasks.

(** Lines 236-240 and 294-298, [slots] being the state of the loop. *)
Fixpoint slotLoop (compatibleTasks : list task) (slots : list slot) : list slot :=
  match compatibleTasks with
  | [] => slots
  | ct :: rest =>
      let thisSlot := slotOf ct in
      slotLoop rest (if negb (slot_in thisSlot slots) then slots ++ [thisSlot]
                     else slots)
  end.

Definition slotsOf (compatibleTasks : list task) : list slot :=
  slotLoop compatibleTasks [].

(** ** Consolidator (lines 222-278) *)

(** Lines 242-246: the tasks whose tuple is [==] to the slot. The slot holds
    the two floats of the task it was made from, and Python takes an item of
    a tuple for equal when it is the same object, before it asks [==]: in
    the code that task is in the group of its slot whatever its times are.
    With the [==] of the floats alone, as here, a task with a NaN time is in
    no group. So for a slot whose times are numbers this is the group of the
    code, and a group that is not empty is always that of such a slot; for a
    slot with a NaN time the code has the one task the slot came from where
    this list is empty. The statements below are about groups that are not
    empty, or about tasks whose times are numbers. *)
Definition concurrentAt (s : slot) (compatibleTasks : list task) : list task :=
  filter (fun ct => slot_eqb (slotOf ct) s) compatibleTasks.

(** Lines 248-252: the new task and its four assignments; [order],
    [batchSize] and [subtasks] keep the defaults of [newTask]. *)
Definition newMainTask (m : string) (s : slot) (first : task) : task :=
  mkTask (fst s) (snd s) (batchSize newTask) (order newTask) m
         (processingUnit first) ("MAIN_" ++ operation first)%string
         (subtasks newTask).

(** The test of lines 256-257. *)
Definition mismatch (cct mainTask : task) : bool :=
  negb (machine cct =? machine mainTask)%string
  || negb (processingUnit cct =? processingUnit mainTask)%string
  || negb (PrimFloat.eqb (tBegin cct) (tBegin mainTask))
  || negb (PrimFloat.eqb (tEnd cct) (tEnd mainTask)).

(** Lines 253-262. What the failing branch prints before it exits is left
    out, but for its first line. *)
Fixpoint subsLoop (mainTask : task) (concurrentTasks subs : list task)
  : result (list task) :=
  match concurrentTasks with
  | [] => Ok subs
  | cct :: rest =>
      let subs := subs ++ [cct] in
      if mismatch cct mainTask
      then Raise (SystemExit 5 "SUBTASKS DO NOT MATCH MAIN TASK")
      else subsLoop mainTask rest subs
  end.

(** Lines 268-270. *)
Definition totalBatch (subs : list task) : float :=
  fold_left (fun total thisSub => PrimFloat.add total (batchSize thisSub)) subs 0%float.

(** Lines 267-271: [mainTask.subtasks = subs; mainTask.batchSize = totalBatch]. *)
Definition withSubtasks (mainTask : task) (subs : list task) : task :=
  mkTask (tBegin mainTask) (tEnd mainTask) (totalBatch subs) (order mainTask)
         (machine mainTask) (processingUnit mainTask) (operation mainTask) subs.

(** The body of [for slot in slots] (lines 242-277): the task that is
    appended to [reducedTasks]. *)
Definition consolidateSlot (m : string) (compatibleTasks : list task) (s : slot)
  : result task :=
  let concurrentTasks := concurrentAt s compatibleTasks in
  match concurrentTasks with
  | first :: _ :: _ =>
      let mainTask := newMainTask m s first in
      subs <- subsLoop mainTask concurrentTasks [] ;;
      let subs := removeDuplicateTasks subs in
      match subs with
      | [only] => Ok only
      | _ => Ok (withSubtasks mainTask subs)
      end
  | [only] => Ok only
  | [] => Raise (SystemExit 5 "INVALID NUMBER OF TASKS PER TIME SLOT")
  end.

Fixpoint slotsLoop (m : string) (compatibleTasks : list task) (slots : list slot)
  (reducedTasks : list task) : result (list task) :=
  match slots with
  | [] => Ok reducedTasks
  | s :: rest =>
      mainTask <- consolidateSlot m compatibleTasks s ;;
      slotsLoop m compatibleTasks rest (reducedTasks ++ [mainTask])
  end.

Fixpoint machinesLoop (tasks : list task) (machines : list string)
  (reducedTasks : list task) : result (list task) :=
  match machines with
  | [] => Ok reducedTasks
  | m :: rest =>
      let compatibleTasks := compatibleWith m tasks in
      let slots := slotsOf compatibleTasks in
      reducedTasks' <- slotsLoop m compatibleTasks slots reducedTasks ;;
      machinesLoop tasks rest reducedTasks'
  end.

Definition consolidateSiblingTasks (tasks : list task) (machines : list string)
  : result (list task) :=
  machinesLoop tasks machines [].

(** ** Overlap checker (lines 281-307) *)

(** [sorted(slots)]: the sort is stable and asks [<] only. It is embedded as
    the insertion sort that CPython runs on short lists: each slot in turn
    goes behind the slots of the sorted run that are not above it. On slots
    that [<] orders totally, as it does slots whose times are numbers, every
    stable sort returns this list; among slots with a NaN time the list that
    CPython returns depends on the comparisons its sort happens to make, and
    need not be this one. *)
Fixpoint insertSlot (pivot : slot) (run : list slot) : list slot :=
  match run with
  | [] => [pivot]
  | p :: rest =>
      if slot_ltb pivot p then pivot :: run else p :: insertSlot pivot rest
  end.

Definition sorted (slots : list slot) : list slot :=
  fold_left (fun run pivot => insertSlot pivot run) slots [].

(** Lines 301-306 on the sorted slots: [slt[1] > slt2[0]] for a slot and a
    later one. Nothing follows the last slot, which is why the code leaves it
    out of the outer loop. *)
Fixpoint overlapAmong (slots : list slot) : bool :=
  match slots with
  | [] => false
  | slt :: later =>
      if existsb (fun slt2 => PrimFloat.ltb (fst slt2) (snd slt)) later then true
      else overlapAmong later
  end.

Fixpoint checkForOverlappingTasks (tasks : list task) (machines : list string)
  : bool :=
  match machines with
  | [] => false
  | m :: rest =>
      let compatibleTasks := compatibleWith m tasks in
      let slots := sorted (slotsOf compatibleTasks) in
      if overlapAmong slots then true
      else checkForOverlappingTasks tasks rest
  end.

(** ** Argument reader (lines 505-518)

    [readArgs] on [sys.argv]: what it prints, one entry for each [print],
    and how it ends. *)

Definition usage : string :=
  ("Usage: plotGantt.py TYPE path/to/result/file.gantt " ++ newline
   ++ " where TYPE is : MTS / SCH")%string.

Definition wrongNumber : string :=
  ("ERROR - Wrong number of arguments! " ++ newline)%string.

Definition readArgs (args : list string) : list string * result (list string) :=
  if negb (List.length args =? 3)%nat then
    ([wrongNumber; usage], Raise (SystemExit 5 wrongNumber))
  else if negb (nth 1 args "" =? "MTS")%string && negb (nth 1 args "" =? "SCH")%string
  then
    ([("ERROR - Wrong type specified! : " ++ nth 1 args "")%string; usage], Ok args)
  else ([], Ok args).

(** ** Derived sets (lines 85-134)

    The four functions run the same loop, each on its field: a value is
    appended when it is [not in] the list so far. *)

Fixpoint uniqueLoop (field : task -> string) (tasks : list task)
  (unique : list string) : list string :=
  match tasks with
  | [] => unique
  | t :: rest =>
      uniqueLoop field rest
        (if negb (existsb (String.eqb (field t)) unique)
         then unique ++ [field t] else unique)
  end.

Definition getMachines (tasks : list task) : list string :=
  uniqueLoop machine tasks [].

Definition getOrders (tasks : list task) : list string :=
  uniqueLoop order tasks [].

Definition getProccessingUnits (tasks : list task) : list string :=
  uniqueLoop processingUnit tasks [].

Definition getOperations (tasks : list task) : list string :=
  uniqueLoop operation tasks [].

(** ** Makespan (lines 310-320)

    [ms] starts as the integer 0, which compares and prints as the float
    does. *)

Fixpoint makeSpanLoop (tasks : list task) (ms : float) : float :=
  match tasks with
  | [] => ms
  | t :: rest =>
      makeSpanLoop rest (if PrimFloat.ltb ms (tEnd t) then tEnd t else ms)
  end.

Definition getMakeSpan (tasks : list task) : float := makeSpanLoop tasks 0%float.

(** ** The task list of the chart (lines 336-359 of [makeGanttChart]) *)

(** [sorted(...)] on strings, which compare character by character; the
    insertion sort is that of [sorted] on slots. *)
Fixpoint insertString (pivot : string) (run : list string) : list string :=
  match run with
  | [] => [pivot]
  | p :: rest =>
      if String.ltb pivot p then pivot :: run else p :: insertString pivot rest
  end.

Definition sortedStrings (names : list string) : list string :=
  fold_left (fun run pivot => insertString pivot run) names [].

(** Lines 348-359: the tasks that are drawn, when the run gets that far.
    Before [checkForOverlappingTasks] answers [True] it prints the two
    slots; the failure keeps the line that [makeGanttChart] prints. *)
Definition chartTasks (pyfloat : string -> option float) (mode : string)
  (f : list string) : result (list task) :=
  tasks <- parseTasks pyfloat mode f ;;
  let machines := sortedStrings (getMachines tasks) in
  tasks <- (if (mode =? "MTS")%string
            then consolidateSiblingTasks tasks machines else Ok tasks) ;;
  let tasks := removeDuplicateTasks tasks in
  if checkForOverlappingTasks tasks machines
  then Raise (SystemExit 5 "ERROR! Found overlapping tasks, check your input file!")
  else Ok tasks.

(** [s[0:n]] and [s[n:]] for [n] from 0 on. *)
Fixpoint upTo (n : nat) (s : string) : string :=
  match n, s with
  | S n', String c rest => String c (upTo n' rest)
  | _, _ => EmptyString
  end.

Fixpoint from (n : nat) (s : string) : string :=
  match n, s with
  | S n', String _ rest => from n' rest
  | _, _ => s
  end.

(** [s.rfind(c)]: the index of the last [c] of [s], or -1. [i] is the index
    of the first character of [s], [last] the answer so far. *)
Fixpoint rfindLoop (c : ascii) (s : string) (i last : Z) : Z :=
  match s with
  | EmptyString => last
  | String a rest => rfindLoop c rest (i + 1)%Z (if Ascii.eqb a c then i else last)
  end.

Definition rfind (c : ascii) (s : string) : Z := rfindLoop c s 0%Z (-1)%Z.

Definition OUTPUT_FILE_EXTENSION : string := "png".

(** Lines 333-345: the two names that [savefig] is called with at lines 462,
    482 and 494, for the chart and for the legend. [fileName[0:-6]] is the
    name without its last six characters, and empty for a shorter name.
    These are the names handed to matplotlib, which writes a file under the
    name it is given when that name has an extension; a name such as
    [./.png], with no base name, has none for it and gets [.png] added once
    more. Strings are sequences of bytes here, so the lengths and indices
    are those of Python for names in ASCII. *)
Definition outputFiles (fileName : string) : string * string :=
  let figType := OUTPUT_FILE_EXTENSION in
  let figureFileName := upTo (String.length fileName - 6) fileName in
  let k := (rfind "/" figureFileName + 1)%Z in
  let figureFileName := from (Z.to_nat k) figureFileName in
  let k := (rfind "/" fileName + 1)%Z in
  let targetDirectory :=
    if (k =? 0)%Z then "./" else upTo (Z.to_nat k) fileName in
  ((targetDirectory ++ figureFileName ++ "." ++ figType)%string,
   (targetDirectory ++ figureFileName ++ "_legend." ++ figType)%string).

(** ** The run of the script (lines 323-522)

    How the process ends: the script runs to its end, an exception that
    nothing catches ends it, or [exit(code)] does. The exit status is 0 in
    the first case; Python gives 1 for an uncaught exception and the code
    for [exit(code)]. *)

Inductive ending : Type :=
| Finished
| Uncaught (exception : string)
| Exited (code : Z).


Definition endingOf (e : failure) : ending :=
  match e with
  | TypeError => Uncaught "TypeError"
  | ValueError => Uncaught "ValueError"
  | SystemExit code _ => Exited code
  end.

(** What the script does not compute itself is given: the builtin
    [float], the files, and the calls into matplotlib, numpy and math. *)
Section Run.

Variable pyfloat : string -> option float.

(** [open(fileName)] and the lines that [for line in f] yields; [None] when
    the file cannot be opened or read, which raises an [OSError] or a
    [UnicodeDecodeError]. *)
Variable openFile : string -> option (list string).

(** The library calls of lines 367-373 ([plt.figure] to [ax.set_yticks]) and
    those of lines 374-385 ([ax.set_ylim] to the colour maps, with
    [math.ceil] on the makespan), for a file name, the machines and the
    tasks: the name of the exception that one of them raises, or [None]
    when they all return. None of them ends the process on its own. *)
Variable figureCalls axesCalls : string -> list string -> list task -> option string.

(** Lines 389-497 in the modes SCH and MTS: the bars, the legend and the
    two [savefig]. *)
Variable drawing : string -> list string -> list task -> ending.

(** [makeGanttChart(mode, fileName)]. The names of the output files are
    computed first and cannot fail. [min(y_pos)] at line 374 is the builtin
    on an empty array when there is no machine, a [ValueError]. In the loop
    over the machines nothing can fail before the mode is looked at (line
    401); a mode that is neither ["SCH"] nor ["MTS"] goes to the last branch
    for the first machine: [print("INVALID MODE")] and [exit(5)] (lines
    457-459). *)
Definition makeGanttChart (mode fileName : string) : ending :=
  match openFile fileName with
  | None => Uncaught "OSError"
  | Some f =>
      match parseTasks pyfloat mode f with
      | Raise e => endingOf e
      | Ok parsed =>
          let machines := sortedStrings (getMachines parsed) in
          match chartTasks pyfloat mode f with
          | Raise e => endingOf e
          | Ok tasks =>
              match figureCalls fileName machines tasks with
              | Some exception => Uncaught exception
              | None =>
                  match machines with
                  | [] => Uncaught "ValueError"
                  | _ :: _ =>
                      match axesCalls fileName machines tasks with
                      | Some exception => Uncaught exception
                      | None =>
                          if (mode =? "SCH")%string || (mode =? "MTS")%string
                          then drawing mode machines tasks
                          else Exited 5
                      end
                  end
              end
          end
      end
  end.

(** Lines 520-522: [args = readArgs(sys.argv)] and
    [makeGanttChart(args[1], args[2])]. What [readArgs] prints comes first
    on the output; the rest of the output is left out. *)
Definition run (argv : list string) : list string * ending :=
  let (printed, r) := readArgs argv in
  match r with
  | Raise e => (printed, endingOf e)
  | Ok args => (printed, makeGanttChart (nth 1 args "") (nth 2 args ""))
  end.

End Run.

(** ** Notions the statements use *)

(** A list with some of its elements left out, the others in their order. *)
Inductive Subseq {A : Type} : list A -> list A -> Prop :=
| Subseq_nil : Subseq [] []
| Subseq_keep (x : A) (l1 l2 : list A) : Subseq l1 l2 -> Subseq (x :: l1) (x :: l2)
| Subseq_skip (x : A) (l1 l2 : list A) : Subseq l1 l2 -> Subseq l1 (x :: l2).

(** The first occurrences of a list, in the words of the specification: a
    task stays when none of the tasks before it has its seven fields.
    [earlier] is what came before [tasks]. *)
Fixpoint firstOccurrences (earlier tasks : list task) : list task :=
  match tasks with
  | [] => []
  | t :: rest =>
      if findTaskInList t earlier then firstOccurrences (earlier ++ [t]) rest
      else t :: firstOccurrences (earlier ++ [t]) rest
  end.

(** Two tasks equal on the seven fields, as the specification has it:
    [tBegin], [tEnd] and [batchSize] are [==], with no tolerance, and
    [order], [machine], [processingUnit] and [operation] are the same
    strings. The subtasks are not looked at. *)
Definition equalOnSevenFields (a b : task) : Prop :=
  PrimFloat.eqb (tBegin a) (tBegin b) = true
  /\ PrimFloat.eqb (tEnd a) (tEnd b) = true
  /\ PrimFloat.eqb (batchSize a) (batchSize b) = true
  /\ order a = order b
  /\ machine a = machine b
  /\ processingUnit a = processingUnit b
  /\ operation a = operation b.

(** [kept] is [tasks] without the tasks that a task before them equals on
    the seven fields; [earlier] is what came before [tasks]. *)
Inductive KeepsFirst : list task -> list task -> list task -> Prop :=
| KeepsFirst_nil (earlier : list task) : KeepsFirst earlier [] []
| KeepsFirst_keep (earlier : list task) (t : task) (rest kept : list task) :
    (forall e, In e earlier -> ~ equalOnSevenFields e t) ->
    KeepsFirst (earlier ++ [t]) rest kept ->
    KeepsFirst earlier (t :: rest) (t :: kept)
| KeepsFirst_drop (earlier : list task) (t : task) (rest kept : list task) :
    (exists e, In e earlier /\ equalOnSevenFields e t) ->
    KeepsFirst (earlier ++ [t]) rest kept ->
    KeepsFirst earlier (t :: rest) kept.

(** Numbers added up from 0, from left to right. *)
Definition addedUp (xs : list float) : float :=
  fold_left PrimFloat.add xs 0%float.

(** The first appearances of the values of a list, in their order. [nodup]
    keeps the last appearances, so they are taken from the end. *)
Definition firstAppearances (values : list string) : list string :=
  rev (nodup string_dec (rev values)).

(** A string of ASCII characters: every byte is below 128. *)
Fixpoint asciiOnly (s : string) : bool :=
  match s with
  | EmptyString => true
  | String c rest => (nat_of_ascii c <? 128)%nat && asciiOnly rest
  end.

(** Every task of a list came behind tasks that differ from it: the state of
    the loop of [removeDuplicateTasks]. *)
Inductive FirstSeen : list task -> Prop :=
| FirstSeen_nil : FirstSeen []
| FirstSeen_snoc (u : list task) (t : task) :
    FirstSeen u -> findTaskInList t u = false -> FirstSeen (u ++ [t]).

(** How often a character stands in a string. *)
Fixpoint countChar (c : ascii) (s : string) : nat :=
  match s with
  | EmptyString => 0
  | String a rest => (if Ascii.eqb a c then 1 else 0) + countChar c rest
  end.

(** No slot of a machine of the list holds tasks of two processing units. *)
Definition oneUnitPerSlot (tasks : list task) (machines : list string) : Prop :=
  forall m t1 t2,
    In m machines ->
    In t1 (compatibleWith m tasks) -> In t2 (compatibleWith m tasks) ->
    slot_eqb (slotOf t1) (slotOf t2) = true ->
    processingUnit t1 = processingUnit t2.

(** [t] is [p] or a subtask of [p], or has the seven fields of one of them. *)
Definition carries (p t : task) : Prop :=
  In t (p :: subtasks p) \/ findTaskInList t (p :: subtasks p) = true.

(** Two tasks on different machines or in slots that are not [==]. *)
Definition apart (p q : task) : Prop :=
  machine p <> machine q \/ slot_eqb (slotOf p) (slotOf q) = false.

(** Two tasks of one machine, the first below the second as tuples are,
    the first ending after the second begins. *)
Definition overlapping (tasks : list task) : Prop :=
  exists t1 t2,
    In t1 tasks /\ In t2 tasks /\ machine t1 = machine t2
    /\ (PrimFloat.ltb (tBegin t1) (tBegin t2) = true
        \/ (PrimFloat.eqb (tBegin t1) (tBegin t2) = true
            /\ PrimFloat.ltb (tEnd t1) (tEnd t2) = true))
    /\ PrimFloat.ltb (tBegin t2) (tEnd t1) = true.

(** A float that is a number: NaN is the one float that is not [==] to
    itself. *)
Definition isNumber (x : float) : bool := PrimFloat.eqb x x.

Definition numericTimes (t : task) : bool :=
  isNumber (tBegin t) && isNumber (tEnd t).

(** The invariant the specification gives the times of a task. *)
Definition ordered (t : task) : bool := PrimFloat.leb (tBegin t) (tEnd t).

(** A subtask on the machine, in the processing unit and at the times of its
    parent, the times compared with [==] as the code does. *)
Definition sharesWith (parent sub : task) : Prop :=
  machine sub = machine parent
  /\ processingUnit sub = processingUnit parent
  /\ PrimFloat.eqb (tBegin sub) (tBegin parent) = true
  /\ PrimFloat.eqb (tEnd sub) (tEnd parent) = true.

(** The overlap of the specification: a machine of the list has two slots
    [(b1, e1)] and [(b2, e2)] with [b1 < b2] and [e1 > b2]. *)
Definition specOverlap (tasks : list task) (machines : list string) : Prop :=
  exists m t1 t2,
    In m machines
    /\ In t1 (compatibleWith m tasks) /\ In t2 (compatibleWith m tasks)
    /\ PrimFloat.ltb (tBegin t1) (tBegin t2) = true
    /\ PrimFloat.ltb (tBegin t2) (tEnd t1) = true.

(** The overlap the code looks for: the first slot is below the second as
    tuples are, by [tBegin] and then by [tEnd], and [e1 > b2]. *)
Definition tupleOverlap (tasks : list task) (machines : list string) : Prop :=
  exists m t1 t2,
    In m machines
    /\ In t1 (compatibleWith m tasks) /\ In t2 (compatibleWith m tasks)
    /\ (PrimFloat.ltb (tBegin t1) (tBegin t2) = true
        \/ (PrimFloat.eqb (tBegin t1) (tBegin t2) = true
            /\ PrimFloat.ltb (tEnd t1) (tEnd t2) = true))
    /\ PrimFloat.ltb (tBegin t2) (tEnd t1) = true.

Definition slot_lt (a b : slot) : Prop := slot_ltb a b = true.

Definition numericSlot (s : slot) : bool := isNumber (fst s) && isNumber (snd s).

(** Every slot of a list came behind slots that are not [==] to it: the
    state of the loop that collects the slots. *)
Inductive DistinctSlots : list slot -> Prop :=
| DistinctSlots_nil : DistinctSlots []
| DistinctSlots_snoc (slots : list slot) (s : slot) :
    DistinctSlots slots -> slot_in s slots = false -> DistinctSlots (slots ++ [s]).

(** ** Sample files

    Lines as [for line in f] yields them, and the tasks they parse to. *)

Definition line (s : string) : string := (s ++ newline)%string.

(** One machine and slot, two batch sizes. *)
Definition twoBatchesFile : list string :=
  [line "PU0_M0_B 0 0.5 A 10"; line "PU0_M0_B 0 0.5 A 20"].

Definition twoBatches : list task :=
  [mkTask 0 0.5 10 "B" "M0" "PU0" "A" []; mkTask 0 0.5 20 "B" "M0" "PU0" "A" []].

(** What the consolidator makes of them. *)
Definition twoBatchesMain : task :=
  mkTask 0 0.5 30 "" "M0" "PU0" "MAIN_A" twoBatches.



(** One machine and slot, one batch size that is not a number. *)
Definition nanBatchFile : list string :=
  [line "PU0_M0_A 0 1 X nan"; line "PU0_M0_B 0 1 X 10"].

Definition nanBatch : list task :=
  [mkTask 0 1 PrimFloat.nan "A" "M0" "PU0" "X" [];
   mkTask 0 1 10 "B" "M0" "PU0" "X" []].

Definition nanBatchMain : task :=
  mkTask 0 1 PrimFloat.nan "" "M0" "PU0" "MAIN_X" nanBatch.

(** The same line twice. *)
Definition duplicatedFile : list string :=
  [line "PU0_M0_B 0 0.5 A 10"; line "PU0_M0_B 0 0.5 A 10"].

Definition duplicated : list task :=
  [mkTask 0 0.5 10 "B" "M0" "PU0" "A" []; mkTask 0 0.5 10 "B" "M0" "PU0" "A" []].

(** One machine and slot, named under two processing units. *)
Definition twoUnitsFile : list string :=
  [line "PU0_M0_A 0 1 X 10"; line "PU1_M0_B 0 1 X 10"].

Definition twoUnits : list task :=
  [mkTask 0 1 10 "A" "M0" "PU0" "X" []; mkTask 0 1 10 "B" "M0" "PU1" "X" []].

(** Two tasks whose [tBegin] differ in their last bit, [0.1 + 0.2] and
    [0.3], and are the same otherwise. *)
Definition nearly : list task :=
  [mkTask (PrimFloat.add 0.1 0.2) 1 10 "" "M1" "" "A" [];
   mkTask 0.3 1 10 "" "M1" "" "A" []].

(** Two slots of a machine that begin together. *)
Definition sameBeginFile : list string :=
  [line "M1 0 1 A 10"; line "M1 0 2 B 10"].

Definition sameBegin : list task :=
  [mkTask 0 1 10 "" "M1" "" "A" []; mkTask 0 2 10 "" "M1" "" "B" []].

(** Two slots of a machine, the second beginning where the first ends. *)
Definition touchingFile : list string :=
  [line "M1 0 1 A 10"; line "M1 1 2 B 10"].

Definition touching : list task :=
  [mkTask 0 1 10 "" "M1" "" "A" []; mkTask 1 2 10 "" "M1" "" "B" []].

(** A task that ends before it begins. *)
Definition invertedFile : list string := [line "M1 2 1 A 10"].

Definition inverted : task := mkTask 2 1 10 "" "M1" "" "A" [].

(** The first line of the sample in the header of the script (lines 23-28),
    its columns lined up with spaces, and the same fields one space apart. *)
Definition alignedLine : string := line "PU0_M0_B 0        0.833333 A          40.2".

Definition singleSpacedLine : string := line "PU0_M0_B 0 0.833333 A 40.2".

(** ** The order of the floats

    The comparisons of the primitive floats are those of their
    specification, [SFcompare]; it orders the floats that are numbers as the
    triples below, compared item by item. *)

Module F64.

Definition sf_rank (x : spec_float) : option (Z * Z * Z) :=
  match x with
  | S754_nan => None
  | S754_infinity true => Some (-2, 0, 0)%Z
  | S754_infinity false => Some (2, 0, 0)%Z
  | S754_zero _ => Some (0, 0, 0)%Z
  | S754_finite true m e => Some (-1, - e, - Z.pos m)%Z
  | S754_finite false m e => Some (1, e, Z.pos m)%Z
  end.

Definition rank (x : float) : option (Z * Z * Z) := sf_rank (Prim2SF x).

Definition lex3 (a b : Z * Z * Z) : comparison :=
  let '(a1, a2, a3) := a in
  let '(b1, b2, b3) := b in
  match Z.compare a1 b1 with
  | Eq => match Z.compare a2 b2 with Eq => Z.compare a3 b3 | c => c end
  | c => c
  end.

Lemma SFcompare_rank (x y : spec_float) :
  SFcompare x y =
  match sf_rank x, sf_rank y with
  | Some a, Some b => Some (lex3 a b)
  | _, _ => None
  end.
Proof.
  destruct x as [[]|[]| |[] m e], y as [[]|[]| |[] m' e']; cbn; try reflexivity.
  rewrite Z.compare_opp. destruct (Z.compare_spec e e'); subst.
  - rewrite Z.compare_refl. reflexivity.
  - destruct (Z.compare_spec e' e); try lia; reflexivity.
  - destruct (Z.compare_spec e' e); try lia; reflexivity.
Qed.

Lemma lex3_Lt_trans (a b c : Z * Z * Z) :
  lex3 a b = Lt -> lex3 b c = Lt -> lex3 a c = Lt.
Proof.
  destruct a as [[a1 a2] a3], b as [[b1 b2] b3], c as [[c1 c2] c3]; unfold lex3.
  destruct (Z.compare_spec a1 b1), (Z.compare_spec b1 c1), (Z.compare_spec a1 c1);
    try lia; try discriminate; auto;
    destruct (Z.compare_spec a2 b2), (Z.compare_spec b2 c2), (Z.compare_spec a2 c2);
    try lia; try discriminate; auto;
    rewrite ?Z.compare_lt_iff; lia.
Qed.

Lemma lex3_Eq (a b : Z * Z * Z) : lex3 a b = Eq <-> a = b.
Proof.
  destruct a as [[a1 a2] a3], b as [[b1 b2] b3]; unfold lex3.
  destruct (Z.compare_spec a1 b1), (Z.compare_spec a2 b2), (Z.compare_spec a3 b3);
    split; intros E; try discriminate; try reflexivity;
    try (inversion E; lia); subst; auto.
Qed.

Lemma lex3_antisym (a b : Z * Z * Z) : lex3 b a = CompOpp (lex3 a b).
Proof.
  destruct a as [[a1 a2] a3], b as [[b1 b2] b3]; unfold lex3.
  rewrite (Z.compare_antisym a1 b1), (Z.compare_antisym a2 b2),
    (Z.compare_antisym a3 b3).
  destruct (a1 ?= b1)%Z, (a2 ?= b2)%Z, (a3 ?= b3)%Z; reflexivity.
Qed.

(** [==] and [<] read on the ranks. *)
Lemma eqb_rank (x y : float) :
  PrimFloat.eqb x y = true <-> exists a, rank x = Some a /\ rank y = Some a.
Proof.
  rewrite FloatAxioms.eqb_spec. unfold SFeqb, rank. rewrite SFcompare_rank.
  destruct (sf_rank (Prim2SF x)) as [a|], (sf_rank (Prim2SF y)) as [b|].
  - destruct (lex3 a b) eqn:E.
    + apply lex3_Eq in E. subst. split; eauto.
    + split; [discriminate|]. intros [c [Ha Hb]].
      assert (a = b) by congruence. apply lex3_Eq in H. congruence.
    + split; [discriminate|]. intros [c [Ha Hb]].
      assert (a = b) by congruence. apply lex3_Eq in H. congruence.
  - split; [discriminate|]. intros [c [_ H]]. discriminate.
  - split; [discriminate|]. intros [c [H _]]. discriminate.
  - split; [discriminate|]. intros [c [H _]]. discriminate.
Qed.

Lemma ltb_rank (x y : float) :
  PrimFloat.ltb x y = true
  <-> exists a b, rank x = Some a /\ rank y = Some b /\ lex3 a b = Lt.
Proof.
  rewrite FloatAxioms.ltb_spec. unfold SFltb, rank. rewrite SFcompare_rank.
  destruct (sf_rank (Prim2SF x)) as [a|], (sf_rank (Prim2SF y)) as [b|].
  - destruct (lex3 a b) eqn:E.
    + split; [discriminate|]. intros [c [d [Ha [Hb H]]]]. congruence.
    + split; eauto.
    + split; [discriminate|]. intros [c [d [Ha [Hb H]]]]. congruence.
  - split; [discriminate|]. intros [c [d [_ [H _]]]]. discriminate.
  - split; [discriminate|]. intros [c [d [H _]]]. discriminate.
  - split; [discriminate|]. intros [c [d [H _]]]. discriminate.
Qed.

Lemma isNumber_rank (x : float) :
  isNumber x = true <-> exists a, rank x = Some a.
Proof.
  unfold isNumber. rewrite eqb_rank. split.
  - intros [a [H _]]. eauto.
  - intros [a H]. eauto.
Qed.

Lemma eqb_sym (x y : float) : PrimFloat.eqb x y = PrimFloat.eqb y x.
Proof.
  apply eq_true_iff_eq. rewrite !eqb_rank.
  split; intros [a [H1 H2]]; eauto.
Qed.

Lemma eqb_trans (x y z : float) :
  PrimFloat.eqb x y = true -> PrimFloat.eqb y z = true -> PrimFloat.eqb x z = true.
Proof.
  rewrite !eqb_rank. intros [a [H1 H2]] [b [H3 H4]].
  exists a. split; congruence.
Qed.

Lemma eqb_isNumber (x y : float) :
  PrimFloat.eqb x y = true -> isNumber x = true /\ isNumber y = true.
Proof.
  rewrite eqb_rank, !isNumber_rank. intros [a [H1 H2]]. eauto.
Qed.

Lemma ltb_trans (x y z : float) :
  PrimFloat.ltb x y = true -> PrimFloat.ltb y z = true -> PrimFloat.ltb x z = true.
Proof.
  rewrite !ltb_rank. intros [a [b [H1 [H2 H3]]]] [b' [c [H4 [H5 H6]]]].
  assert (b' = b) by congruence. subst.
  exists a, c. repeat split; auto. eapply lex3_Lt_trans; eauto.
Qed.

Lemma ltb_eqb_l (x x' y : float) :
  PrimFloat.eqb x x' = true -> PrimFloat.ltb x y = PrimFloat.ltb x' y.
Proof.
  rewrite eqb_rank. intros [a [H1 H2]].
  apply eq_true_iff_eq. rewrite !ltb_rank.
  split; intros [b [c [H3 [H4 H5]]]]; exists a, c;
    repeat split; auto; congruence.
Qed.

Lemma ltb_eqb_r (x y y' : float) :
  PrimFloat.eqb y y' = true -> PrimFloat.ltb x y = PrimFloat.ltb x y'.
Proof.
  rewrite eqb_rank. intros [a [H1 H2]].
  apply eq_true_iff_eq. rewrite !ltb_rank.
  split; intros [b [c [H3 [H4 H5]]]]; exists b, a;
    repeat split; auto; congruence.
Qed.

Lemma ltb_not_eqb (x y : float) :
  PrimFloat.ltb x y = true -> PrimFloat.eqb x y = false.
Proof.
  rewrite ltb_rank. intros [a [b [H1 [H2 H3]]]].
  destruct (PrimFloat.eqb x y) eqn:E; auto.
  apply eqb_rank in E. destruct E as [c [H4 H5]].
  assert (a = b) by congruence. apply lex3_Eq in H. congruence.
Qed.

Lemma ltb_asym (x y : float) :
  PrimFloat.ltb x y = true -> PrimFloat.ltb y x = false.
Proof.
  rewrite ltb_rank. intros [a [b [H1 [H2 H3]]]].
  destruct (PrimFloat.ltb y x) eqn:E; auto.
  apply ltb_rank in E. destruct E as [c [d [H4 [H5 H6]]]].
  assert (c = b) by congruence. assert (d = a) by congruence. subst.
  rewrite (lex3_antisym a b), H3 in H6. discriminate.
Qed.

(** Two numbers are [<], [==] or [>]. *)
Lemma total (x y : float) :
  isNumber x = true -> isNumber y = true ->
  PrimFloat.ltb x y = true \/ PrimFloat.eqb x y = true \/ PrimFloat.ltb y x = true.
Proof.
  rewrite !isNumber_rank. intros [a Ha] [b Hb].
  destruct (lex3 a b) eqn:E.
  - right; left. apply lex3_Eq in E. subst. apply eqb_rank. eauto.
  - left. apply ltb_rank. eauto.
  - right; right. apply ltb_rank. exists b, a. repeat split; auto.
    rewrite (lex3_antisym a b), E. reflexivity.
Qed.

Lemma ltb_isNumber (x y : float) :
  PrimFloat.ltb x y = true -> isNumber x = true /\ isNumber y = true.
Proof.
  rewrite ltb_rank, !isNumber_rank. intros [a [b [H1 [H2 _]]]]. eauto.
Qed.

End F64.

(** ** The deduplicator *)

Lemma Subseq_refl {A : Type} (l : list A) : Subseq l l.
Proof. induction l; constructor; auto. Qed.

Lemma Subseq_trans {A : Type} (l1 l2 l3 : list A) :
  Subseq l1 l2 -> Subseq l2 l3 -> Subseq l1 l3.
Proof.
  intros H12 H23. revert l1 H12.
  induction H23; intros l0 H12.
  - exact H12.
  - inversion H12; subst.
    + constructor. auto.
    + constructor. auto.
  - constructor. auto.
Qed.

Lemma Subseq_app_skip {A : Type} (l1 l2 : list A) (x : A) :
  Subseq (l1 ++ l2) (l1 ++ x :: l2).
Proof.
  induction l1; simpl.
  - constructor. apply Subseq_refl.
  - constructor. exact IHl1.
Qed.

Lemma Subseq_In {A : Type} (l1 l2 : list A) :
  Subseq l1 l2 -> forall x, In x l1 -> In x l2.
Proof.
  induction 1; simpl; intros y Hy; auto.
  destruct Hy; auto.
Qed.

Lemma findTaskInList_true (task0 : task) (taskList : list task) :
  findTaskInList task0 taskList = true
  <-> exists t, In t taskList /\ sameFields t task0 = true.
Proof.
  induction taskList as [|t rest IH]; simpl.
  - split; [discriminate | intros [t [[] _]]].
  - destruct (sameFields t task0) eqn:E.
    + split; auto. intros _. exists t. auto.
    + rewrite IH. split.
      * intros [t' [Hin Hs]]. exists t'. auto.
      * intros [t' [[Heq|Hin] Hs]]; [congruence | exists t'; auto].
Qed.

Lemma findTaskInList_false (task0 : task) (taskList : list task) :
  findTaskInList task0 taskList = false
  <-> forall t, In t taskList -> sameFields t task0 = false.
Proof.
  split.
  - intros H t Hin. destruct (sameFields t task0) eqn:E; auto.
    assert (findTaskInList task0 taskList = true)
      by (apply findTaskInList_true; eauto).
    congruence.
  - intros H. destruct (findTaskInList task0 taskList) eqn:E; auto.
    apply findTaskInList_true in E. destruct E as [t [Hin Hs]].
    rewrite (H t Hin) in Hs. discriminate.
Qed.

Lemma findTaskInList_app (task0 : task) (l1 l2 : list task) :
  findTaskInList task0 (l1 ++ l2)
  = findTaskInList task0 l1 || findTaskInList task0 l2.
Proof.
  induction l1 as [|t rest IH]; simpl; auto.
  destruct (sameFields t task0); auto.
Qed.

Lemma sameFields_sym (t1 t2 : task) : sameFields t1 t2 = sameFields t2 t1.
Proof.
  unfold sameFields.
  rewrite (F64.eqb_sym (tBegin t1)), (F64.eqb_sym (tEnd t1)),
    (F64.eqb_sym (batchSize t1)), (String.eqb_sym (order t1)),
    (String.eqb_sym (machine t1)), (String.eqb_sym (processingUnit t1)),
    (String.eqb_sym (operation t1)).
  reflexivity.
Qed.

Lemma sameFields_trans (t1 t2 t3 : task) :
  sameFields t1 t2 = true -> sameFields t2 t3 = true -> sameFields t1 t3 = true.
Proof.
  unfold sameFields. rewrite !andb_true_iff, !String.eqb_eq.
  intros [[[[[[B1 E1] S1] O1] M1] P1] Q1] [[[[[[B2 E2] S2] O2] M2] P2] Q2].
  repeat split; try congruence; eapply F64.eqb_trans; eauto.
Qed.

Lemma dedupLoop_FirstSeen (tasks uniqueTasks : list task) :
  FirstSeen uniqueTasks -> FirstSeen (dedupLoop tasks uniqueTasks).
Proof.
  revert uniqueTasks. induction tasks as [|t rest IH]; simpl; intros u Hu; auto.
  apply IH. destruct (findTaskInList t u) eqn:E; simpl; auto.
  constructor; auto.
Qed.

Lemma dedupLoop_Subseq (tasks uniqueTasks : list task) :
  Subseq (dedupLoop tasks uniqueTasks) (uniqueTasks ++ tasks).
Proof.
  revert uniqueTasks. induction tasks as [|t rest IH]; simpl; intros u.
  - rewrite app_nil_r. apply Subseq_refl.
  - destruct (findTaskInList t u); simpl.
    + eapply Subseq_trans; [apply IH | apply Subseq_app_skip].
    + specialize (IH (u ++ [t])). rewrite <- app_assoc in IH. exact IH.
Qed.

Lemma FirstSeen_snoc_inv (u : list task) (t : task) :
  FirstSeen (u ++ [t]) -> FirstSeen u /\ findTaskInList t u = false.
Proof.
  intros H. inversion H as [E | u' t' Hu Hf E].
  - destruct u; discriminate.
  - apply app_inj_tail in E. destruct E; subst. auto.
Qed.

Lemma FirstSeen_prefix (u v : list task) : FirstSeen (u ++ v) -> FirstSeen u.
Proof.
  induction v as [|x v IH] using rev_ind; intros H.
  - rewrite app_nil_r in H. exact H.
  - rewrite app_assoc in H. apply FirstSeen_snoc_inv in H. tauto.
Qed.

Lemma dedupLoop_fixed (tasks uniqueTasks : list task) :
  FirstSeen (uniqueTasks ++ tasks) ->
  dedupLoop tasks uniqueTasks = uniqueTasks ++ tasks.
Proof.
  revert uniqueTasks. induction tasks as [|t rest IH]; simpl; intros u H.
  - rewrite app_nil_r. reflexivity.
  - assert (Hp : FirstSeen (u ++ [t])).
    { apply (FirstSeen_prefix _ rest). rewrite <- app_assoc. exact H. }
    apply FirstSeen_snoc_inv in Hp. destruct Hp as [_ Hf].
    rewrite Hf. simpl. rewrite IH; rewrite <- app_assoc; auto.
Qed.

Lemma FirstSeen_pairwise (u : list task) :
  FirstSeen u ->
  forall i j ti tj, i < j -> nth_error u i = Some ti -> nth_error u j = Some tj ->
  sameFields ti tj = false.
Proof.
  induction 1 as [|u t Hu IH Hf]; intros i j ti tj Hij Hi Hj.
  - destruct i; discriminate.
  - assert (Hjl : j < List.length (u ++ [t]))
      by (apply nth_error_Some; congruence).
    rewrite length_app in Hjl. simpl in Hjl.
    assert (Hi' : nth_error u i = Some ti)
      by (rewrite nth_error_app1 in Hi by lia; exact Hi).
    destruct (Nat.eq_dec j (List.length u)) as [E|E].
    + subst j. rewrite nth_error_app2, Nat.sub_diag in Hj by lia.
      simpl in Hj. inversion Hj; subst tj.
      rewrite findTaskInList_false in Hf. apply Hf.
      eapply nth_error_In; eauto.
    + rewrite nth_error_app1 in Hj by lia. apply (IH i j ti tj); auto.
Qed.

Lemma dedupLoop_firstOccurrences (tasks uniqueTasks earlier : list task) :
  (forall x, findTaskInList x earlier = findTaskInList x uniqueTasks) ->
  dedupLoop tasks uniqueTasks = uniqueTasks ++ firstOccurrences earlier tasks.
Proof.
  revert uniqueTasks earlier.
  induction tasks as [|t rest IH]; simpl; intros u earlier H.
  - rewrite app_nil_r. reflexivity.
  - rewrite (H t). destruct (findTaskInList t u) eqn:E; simpl.
    + apply IH. intros x. rewrite findTaskInList_app, H. simpl.
      destruct (sameFields t x) eqn:Ex; [|destruct (findTaskInList x u); reflexivity].
      apply findTaskInList_true in E. destruct E as [k [Hk Hs]].
      assert (Hx : findTaskInList x u = true).
      { apply findTaskInList_true. exists k. split; auto.
        eapply sameFields_trans; eauto. }
      rewrite Hx. reflexivity.
    + rewrite (IH (u ++ [t]) (earlier ++ [t])).
      * rewrite <- app_assoc. reflexivity.
      * intros x. rewrite !findTaskInList_app, H. reflexivity.
Qed.

Lemma removeDuplicateTasks_FirstSeen (tasks : list task) :
  FirstSeen (removeDuplicateTasks tasks).
Proof.
  unfold removeDuplicateTasks.
  destruct tasks as [|t [|t' rest]]; simpl (List.length _ <? 2)%nat; cbv iota.
  - constructor.
  - apply (FirstSeen_snoc [] t); [constructor | reflexivity].
  - apply dedupLoop_FirstSeen. constructor.
Qed.

Lemma removeDuplicateTasks_Subseq (tasks : list task) :
  Subseq (removeDuplicateTasks tasks) tasks.
Proof.
  unfold removeDuplicateTasks. destruct (List.length tasks <? 2)%nat.
  - apply Subseq_refl.
  - apply (dedupLoop_Subseq tasks []).
Qed.

Lemma dedupLoop_prefix (tasks uniqueTasks : list task) :
  dedupLoop tasks uniqueTasks = uniqueTasks ++ firstOccurrences uniqueTasks tasks.
Proof. apply dedupLoop_firstOccurrences. reflexivity. Qed.

Lemma dedupLoop_covers (tasks uniqueTasks : list task) (c : task) :
  In c tasks ->
  In c (dedupLoop tasks uniqueTasks)
  \/ findTaskInList c (dedupLoop tasks uniqueTasks) = true.
Proof.
  revert uniqueTasks. induction tasks as [|t rest IH]; simpl; intros u Hc.
  - contradiction.
  - destruct Hc as [E|Hc]; [subst t|auto].
    rewrite dedupLoop_prefix.
    destruct (findTaskInList c u) eqn:F; simpl.
    + right. rewrite findTaskInList_app, F. reflexivity.
    + left. rewrite <- app_assoc. apply in_or_app. right. left. reflexivity.
Qed.

Lemma removeDuplicateTasks_covers (tasks : list task) (c : task) :
  In c tasks ->
  In c (removeDuplicateTasks tasks)
  \/ findTaskInList c (removeDuplicateTasks tasks) = true.
Proof.
  unfold removeDuplicateTasks. destruct (List.length tasks <? 2)%nat; auto.
  apply dedupLoop_covers.
Qed.

Lemma removeDuplicateTasks_head (first : task) (rest : list task) :
  exists kept, removeDuplicateTasks (first :: rest) = first :: kept.
Proof.
  unfold removeDuplicateTasks. destruct (List.length (first :: rest) <? 2)%nat.
  - eauto.
  - simpl. rewrite dedupLoop_prefix. simpl. eauto.
Qed.

Lemma removeDuplicateTasks_In (tasks : list task) (c : task) :
  In c (removeDuplicateTasks tasks) -> In c tasks.
Proof.
  apply Subseq_In. apply removeDuplicateTasks_Subseq.
Qed.

(** The test of [findTaskInList] is the equality of the specification on
    the seven fields. *)
Lemma sameFields_iff (a b : task) :
  sameFields a b = true <-> equalOnSevenFields a b.
Proof.
  unfold sameFields, equalOnSevenFields.
  rewrite !andb_true_iff, !String.eqb_eq. tauto.
Qed.

Lemma firstOccurrences_KeepsFirst (earlier tasks : list task) :
  KeepsFirst earlier tasks (firstOccurrences earlier tasks).
Proof.
  revert earlier. induction tasks as [|t rest IH]; simpl; intros earlier.
  - constructor.
  - destruct (findTaskInList t earlier) eqn:E.
    + apply KeepsFirst_drop; [|apply IH].
      apply findTaskInList_true in E. destruct E as [e [He S]].
      exists e. split; [exact He | apply sameFields_iff; exact S].
    + apply KeepsFirst_keep; [|apply IH].
      intros e He Q. apply sameFields_iff in Q.
      rewrite (proj1 (findTaskInList_false _ _) E e He) in Q. discriminate.
Qed.

(** What is kept is decided by the list: no two lists are. *)
Lemma KeepsFirst_unique (earlier tasks kept kept' : list task) :
  KeepsFirst earlier tasks kept -> KeepsFirst earlier tasks kept' -> kept = kept'.
Proof.
  intros H. revert kept'.
  induction H as [earlier | earlier t rest kept No H IH | earlier t rest kept Yes H IH];
    intros kept' H'; inversion H'; subst.
  - reflexivity.
  - f_equal. apply IH. assumption.
  - match goal with Y : exists _, _ |- _ => destruct Y as [e [He Q]] end.
    destruct (No e He Q).
  - destruct Yes as [e [He Q]].
    match goal with N : forall _, In _ _ -> ~ _ |- _ => destruct (N e He Q) end.
  - apply IH. assumption.
Qed.

Lemma removeDuplicateTasks_firstOccurrences (tasks : list task) :
  removeDuplicateTasks tasks = firstOccurrences [] tasks.
Proof.
  unfold removeDuplicateTasks.
  destruct tasks as [|t [|t' rest]]; simpl (List.length _ <? 2)%nat; cbv iota.
  - reflexivity.
  - reflexivity.
  - rewrite (dedupLoop_firstOccurrences _ [] []); auto.
Qed.

(** C4. [removeDuplicateTasks] returns the first occurrences of its input:
    the result is the input with some tasks left out, the others in their
    order; no two tasks of the result agree on the seven fields [tBegin],
    [tEnd], [batchSize], [order], [machine], [processingUnit] and
    [operation], compared with [==] and no tolerance; and the tasks kept are
    those that no earlier task of the input equals. The test of the code,
    [sameFields], is that equality on the seven fields
    ([equalOnSevenFields]): no two tasks of the result are equal on them,
    and the result is the one list that keeps a task of the input exactly
    when no task before it is equal to it on them ([KeepsFirst]). *)
Theorem removeDuplicateTasks_first_occurrences (tasks : list task) :
  Subseq (removeDuplicateTasks tasks) tasks
  /\ (forall i j ti tj,
        i <> j ->
        nth_error (removeDuplicateTasks tasks) i = Some ti ->
        nth_error (removeDuplicateTasks tasks) j = Some tj ->
        sameFields ti tj = false)
  /\ removeDuplicateTasks tasks = firstOccurrences [] tasks
  /\ (forall a b, sameFields a b = true <-> equalOnSevenFields a b)
  /\ (forall i j ti tj,
        i <> j ->
        nth_error (removeDuplicateTasks tasks) i = Some ti ->
        nth_error (removeDuplicateTasks tasks) j = Some tj ->
        ~ equalOnSevenFields ti tj)
  /\ (forall kept, KeepsFirst [] tasks kept <-> kept = removeDuplicateTasks tasks).
Proof.
  assert (P : forall i j ti tj,
             i <> j ->
             nth_error (removeDuplicateTasks tasks) i = Some ti ->
             nth_error (removeDuplicateTasks tasks) j = Some tj ->
             sameFields ti tj = false).
  { intros i j ti tj Hij Hi Hj.
    pose proof (FirstSeen_pairwise _ (removeDuplicateTasks_FirstSeen tasks)) as P.
    destruct (Nat.lt_ge_cases i j) as [L|L].
    - apply (P i j ti tj); auto.
    - rewrite sameFields_sym. apply (P j i tj ti); auto. lia. }
  split; [|split; [|split; [|split; [|split]]]].
  - apply removeDuplicateTasks_Subseq.
  - exact P.
  - apply removeDuplicateTasks_firstOccurrences.
  - exact sameFields_iff.
  - intros i j ti tj Hij Hi Hj Q. apply sameFields_iff in Q.
    rewrite (P i j ti tj Hij Hi Hj) in Q. discriminate.
  - intros kept. split.
    + intros K. apply (KeepsFirst_unique [] tasks); [exact K|].
      rewrite removeDuplicateTasks_firstOccurrences.
      apply firstOccurrences_KeepsFirst.
    + intros E. subst kept. rewrite removeDuplicateTasks_firstOccurrences.
      apply firstOccurrences_KeepsFirst.
Qed.

(** C10. [removeDuplicateTasks] is idempotent: on its own result it returns
    that result. *)
Theorem removeDuplicateTasks_idempotent (tasks : list task) :
  removeDuplicateTasks (removeDuplicateTasks tasks) = removeDuplicateTasks tasks.
Proof.
  pose proof (removeDuplicateTasks_FirstSeen tasks) as H.
  generalize dependent (removeDuplicateTasks tasks). intros out H.
  unfold removeDuplicateTasks. destruct (List.length out <? 2)%nat; auto.
  apply (dedupLoop_fixed out []). exact H.
Qed.

(** ** The consolidator *)

Lemma compatibleWith_In (m : string) (tasks : list task) (c : task) :
  In c (compatibleWith m tasks) <-> In c tasks /\ machine c = m.
Proof.
  unfold compatibleWith. rewrite filter_In, String.eqb_eq.
  split; intros [H1 H2]; auto.
Qed.

Lemma concurrentAt_In (s : slot) (compatibleTasks : list task) (c : task) :
  In c (concurrentAt s compatibleTasks)
  <-> In c compatibleTasks /\ slot_eqb (slotOf c) s = true.
Proof. unfold concurrentAt. apply filter_In. Qed.

(** Within a group the machine and the times match those of the new main
    task: the test of lines 256-257 is left with the processing unit. *)
Lemma mismatch_concurrent (tasks : list task) (m : string) (s : slot)
  (first cct : task) :
  In cct (concurrentAt s (compatibleWith m tasks)) ->
  mismatch cct (newMainTask m s first)
  = negb (processingUnit cct =? processingUnit first)%string.
Proof.
  rewrite concurrentAt_In, compatibleWith_In. intros [[_ Hm] Hs].
  unfold slot_eqb, slotOf in Hs. simpl in Hs.
  apply andb_true_iff in Hs. destruct Hs as [Hb He].
  unfold mismatch, newMainTask. simpl.
  rewrite Hm, String.eqb_refl, Hb, He. simpl.
  rewrite !orb_false_r. reflexivity.
Qed.

Lemma subsLoop_spec (mainTask : task) (concurrentTasks subs : list task) :
  subsLoop mainTask concurrentTasks subs
  = if existsb (fun cct => mismatch cct mainTask) concurrentTasks
    then Raise (SystemExit 5 "SUBTASKS DO NOT MATCH MAIN TASK")
    else Ok (subs ++ concurrentTasks).
Proof.
  revert subs. induction concurrentTasks as [|cct rest IH]; simpl; intros subs.
  - rewrite app_nil_r. reflexivity.
  - destruct (mismatch cct mainTask); simpl; auto.
    rewrite IH. rewrite <- app_assoc. reflexivity.
Qed.

Lemma existsb_mismatch_concurrent (tasks : list task) (m : string) (s : slot)
  (first : task) (group : list task) :
  (forall c, In c group -> In c (concurrentAt s (compatibleWith m tasks))) ->
  existsb (fun cct => mismatch cct (newMainTask m s first)) group
  = negb (forallb (fun cct => (processingUnit cct =? processingUnit first)%string)
                  group).
Proof.
  induction group as [|c rest IH]; simpl; intros H; auto.
  rewrite (mismatch_concurrent tasks m s first c) by (apply H; auto).
  rewrite IH by (intros; apply H; auto).
  rewrite negb_andb. reflexivity.
Qed.

(** What [consolidateSlot] returns, by the size of the group and of what
    [removeDuplicateTasks] leaves of it. *)
Lemma consolidateSlot_Ok (tasks : list task) (m : string) (s : slot) (p : task) :
  consolidateSlot m (compatibleWith m tasks) s = Ok p ->
  removeDuplicateTasks (concurrentAt s (compatibleWith m tasks)) = [p]
  \/ exists first rest,
       concurrentAt s (compatibleWith m tasks) = first :: rest
       /\ forallb (fun cct => (processingUnit cct =? processingUnit first)%string)
                  (first :: rest) = true
       /\ 2 <= List.length (removeDuplicateTasks (first :: rest))
       /\ p = withSubtasks (newMainTask m s first)
                           (removeDuplicateTasks (first :: rest)).
Proof.
  unfold consolidateSlot.
  destruct (concurrentAt s (compatibleWith m tasks)) as [|first [|second rest]] eqn:G.
  - discriminate.
  - intros H. inversion H; subst. left. reflexivity.
  - rewrite subsLoop_spec.
    rewrite (existsb_mismatch_concurrent tasks m s first)
      by (intros c Hc; rewrite G; exact Hc).
    destruct (forallb _ (first :: second :: rest)) eqn:F; simpl; [|discriminate].
    destruct (removeDuplicateTasks (first :: second :: rest))
      as [|k [|k' ks]] eqn:R; intros H; inversion H; subst.
    + destruct (removeDuplicateTasks_head first (second :: rest)) as [kept K].
      congruence.
    + left. reflexivity.
    + right. exists first, (second :: rest). rewrite R. simpl.
      repeat split; auto. lia.
Qed.

Lemma slotsLoop_Ok (m : string) (compatibleTasks : list task) (slots : list slot)
  (reducedTasks out : list task) :
  slotsLoop m compatibleTasks slots reducedTasks = Ok out ->
  exists added,
    out = reducedTasks ++ added
    /\ Forall2 (fun s p => consolidateSlot m compatibleTasks s = Ok p) slots added.
Proof.
  revert reducedTasks. induction slots as [|s rest IH]; simpl; intros acc H.
  - inversion H; subst. exists []. rewrite app_nil_r. auto.
  - destruct (consolidateSlot m compatibleTasks s) as [p|e] eqn:E; simpl in H;
      [|discriminate].
    apply IH in H. destruct H as [added [Hout Hall]].
    exists (p :: added). split.
    + rewrite Hout, <- app_assoc. reflexivity.
    + constructor; auto.
Qed.

Lemma Forall2_In_r {A B : Type} (R : A -> B -> Prop) (l1 : list A) (l2 : list B) :
  Forall2 R l1 l2 -> forall b, In b l2 -> exists a, In a l1 /\ R a b.
Proof.
  induction 1 as [|a b' l1 l2 HR HF IH]; simpl; intros b Hb.
  - contradiction.
  - destruct Hb as [E|Hb].
    + subst. eauto.
    + destruct (IH b Hb) as [a' [Ha HR']]. eauto.
Qed.

Lemma Forall2_In_l {A B : Type} (R : A -> B -> Prop) (l1 : list A) (l2 : list B) :
  Forall2 R l1 l2 -> forall a, In a l1 -> exists b, In b l2 /\ R a b.
Proof.
  induction 1 as [|a' b l1 l2 HR HF IH]; simpl; intros a Ha.
  - contradiction.
  - destruct Ha as [E|Ha].
    + subst. eauto.
    + destruct (IH a Ha) as [b' [Hb HR']]. eauto.
Qed.

(** Every task of the result was appended for a slot of a machine. *)
Lemma machinesLoop_Ok (tasks : list task) (machines : list string)
  (reducedTasks out : list task) :
  machinesLoop tasks machines reducedTasks = Ok out ->
  forall p, In p out ->
    In p reducedTasks
    \/ exists m s,
         In m machines
         /\ In s (slotsOf (compatibleWith m tasks))
         /\ consolidateSlot m (compatibleWith m tasks) s = Ok p.
Proof.
  revert reducedTasks. induction machines as [|m rest IH]; simpl; intros acc H p Hp.
  - inversion H; subst. auto.
  - destruct (slotsLoop m (compatibleWith m tasks)
                (slotsOf (compatibleWith m tasks)) acc) as [acc'|e] eqn:E;
      simpl in H; [|discriminate].
    destruct (IH _ H p Hp) as [Hin | [m' [s [Hm [Hs Hc]]]]].
    + apply slotsLoop_Ok in E. destruct E as [added [Hacc Hall]].
      subst acc'. apply in_app_or in Hin. destruct Hin as [Hin|Hin]; auto.
      destruct (Forall2_In_r _ _ _ Hall p Hin) as [s [Hs Hc]].
      right. exists m, s. auto.
    + right. exists m', s. auto.
Qed.

(** And every slot of every machine has its task in the result. *)
Lemma machinesLoop_complete (tasks : list task) (machines : list string)
  (reducedTasks out : list task) :
  machinesLoop tasks machines reducedTasks = Ok out ->
  (forall p, In p reducedTasks -> In p out)
  /\ forall m s p,
       In m machines ->
       In s (slotsOf (compatibleWith m tasks)) ->
       consolidateSlot m (compatibleWith m tasks) s = Ok p ->
       In p out.
Proof.
  revert reducedTasks. induction machines as [|m rest IH]; simpl; intros acc H.
  - inversion H; subst. split; auto. intros m s p [].
  - destruct (slotsLoop m (compatibleWith m tasks)
                (slotsOf (compatibleWith m tasks)) acc) as [acc'|e] eqn:E;
      simpl in H; [|discriminate].
    destruct (IH _ H) as [Hkeep Hnew].
    apply slotsLoop_Ok in E. destruct E as [added [Hacc Hall]]. subst acc'.
    split.
    + intros p Hp. apply Hkeep. apply in_or_app. auto.
    + intros m' s p [E|Hm] Hs Hc.
      * subst m'. destruct (Forall2_In_l _ _ _ Hall s Hs) as [p' [Hp' Hc']].
        assert (p' = p) by congruence. subst p'.
        apply Hkeep. apply in_or_app. auto.
      * eapply Hnew; eauto.
Qed.

Lemma slotLoop_In (compatibleTasks : list task) (slots : list slot) (s : slot) :
  In s (slotLoop compatibleTasks slots) ->
  In s slots \/ exists ct, In ct compatibleTasks /\ s = slotOf ct.
Proof.
  revert slots. induction compatibleTasks as [|ct rest IH]; simpl; intros slots H.
  - auto.
  - apply IH in H. destruct H as [H | [ct' [Hin E]]].
    + destruct (slot_in (slotOf ct) slots); simpl in H; auto.
      apply in_app_or in H. destruct H as [H | [E | []]]; auto.
      right. exists ct. auto.
    + right. exists ct'. auto.
Qed.

Lemma slotsOf_In (compatibleTasks : list task) (s : slot) :
  In s (slotsOf compatibleTasks) ->
  exists ct, In ct compatibleTasks /\ s = slotOf ct.
Proof.
  intros H. apply slotLoop_In in H. destruct H as [[] | H]. exact H.
Qed.

(** The tasks of the result, by where they come from: each is what
    [consolidateSlot] returns for a slot of a machine, and that is the one
    task [removeDuplicateTasks] leaves of the group, a task of the input, or
    a new main task over a group of one processing unit which it leaves two
    tasks or more of. *)
Lemma consolidateSiblingTasks_Ok (tasks : list task) (machines : list string)
  (out : list task) (p : task) :
  consolidateSiblingTasks tasks machines = Ok out ->
  In p out ->
  exists m s,
    In m machines
    /\ In s (slotsOf (compatibleWith m tasks))
    /\ consolidateSlot m (compatibleWith m tasks) s = Ok p
    /\ ((removeDuplicateTasks (concurrentAt s (compatibleWith m tasks)) = [p]
         /\ In p tasks)
        \/ exists first rest,
             concurrentAt s (compatibleWith m tasks) = first :: rest
             /\ forallb (fun cct =>
                           (processingUnit cct =? processingUnit first)%string)
                        (first :: rest) = true
             /\ 2 <= List.length (removeDuplicateTasks (first :: rest))
             /\ p = withSubtasks (newMainTask m s first)
                                 (removeDuplicateTasks (first :: rest))).
Proof.
  intros H Hp. unfold consolidateSiblingTasks in H.
  destruct (machinesLoop_Ok _ _ _ _ H p Hp) as [[] | [m [s [Hm [Hs Hc]]]]].
  exists m, s. repeat (split; [assumption|]).
  apply consolidateSlot_Ok in Hc.
  destruct Hc as [R | [first [rest [G [F [L E]]]]]].
  - left. split; [exact R|].
    assert (Hin : In p (removeDuplicateTasks
                          (concurrentAt s (compatibleWith m tasks))))
      by (rewrite R; left; reflexivity).
    apply removeDuplicateTasks_In, concurrentAt_In in Hin.
    destruct Hin as [Hin _]. apply compatibleWith_In in Hin. tauto.
  - right. exists first, rest.
    repeat (split; [assumption|]). assumption.
Qed.

Lemma group_sharesWith (tasks : list task) (m : string) (s : slot)
  (first : task) (rest subs : list task) (sub : task) :
  concurrentAt s (compatibleWith m tasks) = first :: rest ->
  forallb (fun cct => (processingUnit cct =? processingUnit first)%string)
          (first :: rest) = true ->
  In sub (first :: rest) ->
  sharesWith (withSubtasks (newMainTask m s first) subs) sub.
Proof.
  intros G F Hin.
  assert (Hg : In sub (concurrentAt s (compatibleWith m tasks)))
    by (rewrite G; exact Hin).
  apply concurrentAt_In in Hg. destruct Hg as [Hc Hs].
  apply compatibleWith_In in Hc. destruct Hc as [_ Hm].
  rewrite forallb_forall in F. specialize (F sub Hin).
  apply String.eqb_eq in F.
  unfold slot_eqb, slotOf in Hs. simpl in Hs. apply andb_true_iff in Hs.
  unfold sharesWith. simpl. tauto.
Qed.


(** The loop of lines 268-270 adds the batch sizes up from 0, from left to
    right. *)
Lemma totalBatch_addedUp (subs : list task) :
  totalBatch subs = addedUp (map batchSize subs).
Proof.
  unfold totalBatch, addedUp. generalize 0%float.
  induction subs as [|sub subs IH]; simpl; intros total; auto.
Qed.

(** C3, as the code has it. A main task is made in the body of
    [for slot in slots], over the group [first :: rest] of a machine and a
    slot. What the body appends is either the one task that
    [removeDuplicateTasks] leaves of the group, a task of the input, or a
    new main task. Such a main task has the group without its duplicates
    for subtasks, at least two of them; its [batchSize] is the sum of
    theirs, added up from 0 and from left to right ([addedUp]): it is that
    float, and [==] to it when that float is a number, which the NaN is
    not; each subtask has its machine and its processing unit, and
    times [==] to its times; and its operation is ["MAIN_"] followed by the
    operation of [first]. On tasks whose times are numbers every task that
    [consolidateSiblingTasks] returns is appended so, for a slot of a
    machine of the list. *)
Theorem consolidateSiblingTasks_parents (tasks : list task) :
  (forall m s first rest p,
     concurrentAt s (compatibleWith m tasks) = first :: rest ->
     consolidateSlot m (compatibleWith m tasks) s = Ok p ->
     (removeDuplicateTasks (first :: rest) = [p] /\ In p tasks)
     \/ (p = withSubtasks (newMainTask m s first)
                          (removeDuplicateTasks (first :: rest))
         /\ subtasks p = removeDuplicateTasks (first :: rest)
         /\ 2 <= List.length (subtasks p)
         /\ batchSize p = addedUp (map batchSize (subtasks p))
         /\ (isNumber (addedUp (map batchSize (subtasks p))) = true ->
             PrimFloat.eqb (batchSize p) (addedUp (map batchSize (subtasks p)))
             = true)
         /\ Forall (sharesWith p) (subtasks p)
         /\ operation p = ("MAIN_" ++ operation first)%string))
  /\ (forall machines out p,
        Forall (fun t => numericTimes t = true) tasks ->
        consolidateSiblingTasks tasks machines = Ok out ->
        In p out ->
        exists m s first rest,
          In m machines
          /\ In s (slotsOf (compatibleWith m tasks))
          /\ concurrentAt s (compatibleWith m tasks) = first :: rest
          /\ consolidateSlot m (compatibleWith m tasks) s = Ok p).
Proof.
  split.
  - intros m s first rest p G Hc.
    pose proof Hc as Hc'. apply consolidateSlot_Ok in Hc'. rewrite G in Hc'.
    destruct Hc' as [R | [first' [rest' [G' [F [L E]]]]]].
    + left. split; [exact R|].
      assert (Hin : In p (removeDuplicateTasks (first :: rest)))
        by (rewrite R; left; reflexivity).
      apply removeDuplicateTasks_In in Hin. rewrite <- G in Hin.
      apply concurrentAt_In in Hin. destruct Hin as [Hin _].
      apply compatibleWith_In in Hin. tauto.
    + inversion G'; subst first' rest'. right. subst p. simpl.
      rewrite totalBatch_addedUp.
      repeat split; auto.
      apply Forall_forall. intros sub Hsub.
      apply (group_sharesWith tasks m s first rest); auto.
      apply removeDuplicateTasks_In. exact Hsub.
  - intros machines out p _ H Hp.
    destruct (consolidateSiblingTasks_Ok _ _ _ _ H Hp)
      as [m [s [Hm [Hs [Hc _]]]]].
    destruct (concurrentAt s (compatibleWith m tasks)) as [|first rest] eqn:G.
    + unfold consolidateSlot in Hc. rewrite G in Hc. discriminate.
    + exists m, s, first, rest. auto.
Qed.

(** C6, as the code has it. Within the group of a machine and a slot the
    test of lines 256-257 never fails on the machine or on the times; it
    comes down to the processing unit, which the grouping does not look at:
    the loop of lines 253-262 exits when a task of the group is not in the
    processing unit of the first, and returns the group otherwise. *)
Theorem consistency_check_processingUnit (tasks : list task) (m : string)
  (s : slot) (first : task) (rest : list task) :
  concurrentAt s (compatibleWith m tasks) = first :: rest ->
  (forall cct, In cct (first :: rest) ->
     mismatch cct (newMainTask m s first)
     = negb (processingUnit cct =? processingUnit first)%string)
  /\ subsLoop (newMainTask m s first) (first :: rest) []
     = if forallb (fun cct => (processingUnit cct =? processingUnit first)%string)
                  (first :: rest)
       then Ok (first :: rest)
       else Raise (SystemExit 5 "SUBTASKS DO NOT MATCH MAIN TASK").
Proof.
  intros G. split.
  - intros cct Hin. apply (mismatch_concurrent tasks). rewrite G. exact Hin.
  - rewrite subsLoop_spec.
    rewrite (existsb_mismatch_concurrent tasks m s first)
      by (intros c Hc; rewrite G; exact Hc).
    destruct (forallb _ (first :: rest)); reflexivity.
Qed.


(** C9, as the code has it. Nothing in the parser compares the two times;
    when every task of a list has [tBegin <= tEnd], so has every task that
    [removeDuplicateTasks] returns, every task that
    [consolidateSiblingTasks] returns, and every subtask of a main task it
    makes. *)
Theorem ordered_preserved (tasks : list task) (machines : list string) :
  Forall (fun t => ordered t = true) tasks ->
  Forall (fun t => ordered t = true) (removeDuplicateTasks tasks)
  /\ forall out,
       consolidateSiblingTasks tasks machines = Ok out ->
       Forall (fun p =>
                 ordered p = true
                 /\ (In p tasks
                     \/ Forall (fun sub => ordered sub = true) (subtasks p)))
              out.
Proof.
  intros H. rewrite Forall_forall in H. split.
  - apply Forall_forall. intros t Ht. apply H, removeDuplicateTasks_In, Ht.
  - intros out Hout. apply Forall_forall. intros p Hp.
    destruct (consolidateSiblingTasks_Ok _ _ _ _ Hout Hp)
      as [m [s [Hm [Hs [_ [[_ Hin] | [first [rest [G [F [L E]]]]]]]]]]].
    + split; auto.
    + subst p. split.
      * apply slotsOf_In in Hs. destruct Hs as [ct [Hct Es]]. subst s.
        apply compatibleWith_In in Hct. unfold ordered. simpl. apply H. tauto.
      * right. simpl. apply Forall_forall. intros sub Hsub.
        apply removeDuplicateTasks_In in Hsub. rewrite <- G in Hsub.
        apply concurrentAt_In in Hsub. destruct Hsub as [Hsub _].
        apply compatibleWith_In in Hsub. apply H. tauto.
Qed.

(** ** The order of the slots *)

Lemma slot_ltb_iff (a b : slot) :
  slot_ltb a b = true
  <-> PrimFloat.ltb (fst a) (fst b) = true
      \/ (PrimFloat.eqb (fst a) (fst b) = true
          /\ PrimFloat.ltb (snd a) (snd b) = true).
Proof.
  unfold slot_ltb.
  destruct (PrimFloat.eqb (fst a) (fst b)) eqn:E0; simpl.
  - assert (L0 : PrimFloat.ltb (fst a) (fst b) = false).
    { destruct (PrimFloat.ltb (fst a) (fst b)) eqn:L; auto.
      apply F64.ltb_not_eqb in L. congruence. }
    rewrite L0.
    destruct (PrimFloat.eqb (snd a) (snd b)) eqn:E1; simpl.
    + assert (L1 : PrimFloat.ltb (snd a) (snd b) = false).
      { destruct (PrimFloat.ltb (snd a) (snd b)) eqn:L; auto.
        apply F64.ltb_not_eqb in L. congruence. }
      rewrite L1. intuition discriminate.
    + intuition discriminate.
  - intuition discriminate.
Qed.

Lemma slot_eqb_iff (a b : slot) :
  slot_eqb a b = true
  <-> PrimFloat.eqb (fst a) (fst b) = true /\ PrimFloat.eqb (snd a) (snd b) = true.
Proof. unfold slot_eqb. apply andb_true_iff. Qed.



Lemma slot_lt_trans (a b c : slot) : slot_lt a b -> slot_lt b c -> slot_lt a c.
Proof.
  unfold slot_lt. rewrite !slot_ltb_iff.
  intros [L1 | [E1 L1]] [L2 | [E2 L2]].
  - left. eapply F64.ltb_trans; eauto.
  - left. rewrite <- (F64.ltb_eqb_r _ _ _ E2). exact L1.
  - left. rewrite (F64.ltb_eqb_l _ _ _ E1). exact L2.
  - right. split.
    + eapply F64.eqb_trans; eauto.
    + eapply F64.ltb_trans; eauto.
Qed.

Lemma slot_lt_asym (a b : slot) : slot_lt a b -> slot_ltb b a = false.
Proof.
  unfold slot_lt. intros H.
  destruct (slot_ltb b a) eqn:L; auto.
  apply slot_ltb_iff in H. apply slot_ltb_iff in L.
  destruct H as [L1 | [E1 L1]], L as [L2 | [E2 L2]].
  - apply F64.ltb_asym in L1. congruence.
  - apply F64.ltb_not_eqb in L1. rewrite F64.eqb_sym in E2. congruence.
  - apply F64.ltb_not_eqb in L2. rewrite F64.eqb_sym in E1. congruence.
  - apply F64.ltb_asym in L1. congruence.
Qed.

Lemma slot_lt_irrefl (a : slot) : slot_ltb a a = false.
Proof.
  destruct (slot_ltb a a) eqn:L; auto.
  pose proof (slot_lt_asym a a L). congruence.
Qed.

Lemma slot_total (a b : slot) :
  numericSlot a = true -> numericSlot b = true ->
  slot_lt a b \/ slot_eqb a b = true \/ slot_lt b a.
Proof.
  unfold numericSlot, slot_lt. rewrite !andb_true_iff, !slot_ltb_iff, slot_eqb_iff.
  intros [A0 A1] [B0 B1].
  destruct (F64.total _ _ A0 B0) as [L | [E | L]]; auto.
  destruct (F64.total _ _ A1 B1) as [L | [E' | L]]; auto.
  right. right. right. rewrite F64.eqb_sym. auto.
Qed.

Lemma slot_ltb_eqb (a a' b b' : slot) :
  slot_eqb a a' = true -> slot_eqb b b' = true -> slot_ltb a b = slot_ltb a' b'.
Proof.
  rewrite !slot_eqb_iff. intros [A0 A1] [B0 B1].
  apply eq_true_iff_eq. rewrite !slot_ltb_iff.
  rewrite (F64.ltb_eqb_l _ _ _ A0), (F64.ltb_eqb_r _ _ _ B0).
  rewrite (F64.ltb_eqb_l _ _ _ A1), (F64.ltb_eqb_r _ _ _ B1).
  assert (PrimFloat.eqb (fst a) (fst b) = true
          <-> PrimFloat.eqb (fst a') (fst b') = true).
  { split; intros E.
    - apply (F64.eqb_trans _ (fst a)); [rewrite F64.eqb_sym; exact A0|].
      apply (F64.eqb_trans _ (fst b)); auto.
    - apply (F64.eqb_trans _ (fst a')); [exact A0|].
      apply (F64.eqb_trans _ (fst b')); auto. rewrite F64.eqb_sym. exact B0. }
  tauto.
Qed.

(** ** The overlap checker *)

Lemma slot_in_false (s : slot) (slots : list slot) :
  slot_in s slots = false <-> forall x, In x slots -> slot_eqb x s = false.
Proof.
  unfold slot_in. split.
  - intros H x Hx. destruct (slot_eqb x s) eqn:E; auto.
    assert (existsb (fun y => slot_eqb y s) slots = true)
      by (apply existsb_exists; eauto).
    congruence.
  - intros H. destruct (existsb (fun y => slot_eqb y s) slots) eqn:E; auto.
    apply existsb_exists in E. destruct E as [x [Hx Ex]].
    rewrite (H x Hx) in Ex. discriminate.
Qed.

Lemma slotLoop_Distinct (compatibleTasks : list task) (slots : list slot) :
  DistinctSlots slots -> DistinctSlots (slotLoop compatibleTasks slots).
Proof.
  revert slots. induction compatibleTasks as [|ct rest IH]; simpl; intros slots H.
  - exact H.
  - apply IH. destruct (slot_in (slotOf ct) slots) eqn:E; simpl; auto.
    constructor; auto.
Qed.

Lemma slotLoop_keeps (compatibleTasks : list task) (slots : list slot) (s : slot) :
  In s slots -> In s (slotLoop compatibleTasks slots).
Proof.
  revert slots. induction compatibleTasks as [|ct rest IH]; simpl; intros slots H.
  - exact H.
  - apply IH. destruct (slot_in (slotOf ct) slots); simpl; auto.
    apply in_or_app. auto.
Qed.

Lemma slotLoop_covers (compatibleTasks : list task) (slots : list slot) (ct : task) :
  In ct compatibleTasks -> numericTimes ct = true ->
  exists s, In s (slotLoop compatibleTasks slots) /\ slot_eqb s (slotOf ct) = true.
Proof.
  revert slots. induction compatibleTasks as [|c rest IH]; simpl; intros slots Hin Hn.
  - contradiction.
  - destruct Hin as [E | Hin]; [subst c | auto].
    destruct (slot_in (slotOf ct) slots) eqn:S; simpl.
    + unfold slot_in in S. apply existsb_exists in S. destruct S as [x [Hx Ex]].
      exists x. split; auto. apply slotLoop_keeps. exact Hx.
    + exists (slotOf ct). split.
      * apply slotLoop_keeps. apply in_or_app. right. left. reflexivity.
      * exact Hn.
Qed.

Lemma insertSlot_In (pivot : slot) (run : list slot) (x : slot) :
  In x (insertSlot pivot run) <-> x = pivot \/ In x run.
Proof.
  induction run as [|p rest IH]; simpl.
  - intuition.
  - destruct (slot_ltb pivot p); simpl; rewrite ?IH; intuition.
Qed.

Lemma sorted_snoc (slots : list slot) (s : slot) :
  sorted (slots ++ [s]) = insertSlot s (sorted slots).
Proof. unfold sorted. rewrite fold_left_app. reflexivity. Qed.

Lemma sorted_In (slots : list slot) (x : slot) : In x (sorted slots) <-> In x slots.
Proof.
  induction slots as [|s slots IH] using rev_ind.
  - reflexivity.
  - rewrite sorted_snoc, insertSlot_In, IH, in_app_iff. simpl. intuition.
Qed.

Lemma insertSlot_sorted (pivot : slot) (run : list slot) :
  numericSlot pivot = true ->
  Forall (fun x => numericSlot x = true) run ->
  (forall x, In x run -> slot_eqb x pivot = false) ->
  StronglySorted slot_lt run ->
  StronglySorted slot_lt (insertSlot pivot run).
Proof.
  intros Hp Hn Hd Hs. induction Hs as [|p rest Hs IH Hall]; simpl.
  - constructor; constructor.
  - inversion Hn as [|? ? Np Nrest]; subst.
    destruct (slot_ltb pivot p) eqn:L.
    + constructor.
      * constructor; auto.
      * constructor; [exact L|].
        rewrite Forall_forall in Hall |- *. intros x Hx.
        eapply slot_lt_trans; [exact L | apply Hall; exact Hx].
    + constructor.
      * apply IH; auto. intros x Hx. apply Hd. right. exact Hx.
      * apply Forall_forall. intros x Hx. apply (proj1 (insertSlot_In _ _ _)) in Hx.
        destruct Hx as [E | Hx].
        -- subst x. destruct (slot_total p pivot Np Hp) as [T | [T | T]].
           ++ exact T.
           ++ rewrite (Hd p) in T by (left; reflexivity). discriminate.
           ++ unfold slot_lt in T. congruence.
        -- rewrite Forall_forall in Hall. apply Hall. exact Hx.
Qed.

Lemma sorted_StronglySorted (slots : list slot) :
  DistinctSlots slots ->
  Forall (fun x => numericSlot x = true) slots ->
  StronglySorted slot_lt (sorted slots).
Proof.
  induction 1 as [|slots s Hd IH Hs]; intros Hn.
  - constructor.
  - apply Forall_app in Hn. destruct Hn as [Hn Hns].
    inversion Hns; subst.
    rewrite sorted_snoc. apply insertSlot_sorted; auto.
    + apply Forall_forall. intros x Hx. apply (proj1 (sorted_In _ _)) in Hx.
      rewrite Forall_forall in Hn. apply Hn. exact Hx.
    + intros x Hx. apply (proj1 (sorted_In _ _)) in Hx.
      rewrite slot_in_false in Hs. apply Hs. exact Hx.
Qed.

(** On sorted slots the two loops of lines 301-306 find a pair exactly when
    some slot is below another and ends after it begins. *)
Lemma overlapAmong_sorted (slots : list slot) :
  StronglySorted slot_lt slots ->
  overlapAmong slots = true
  <-> exists a b, In a slots /\ In b slots /\ slot_lt a b
                  /\ PrimFloat.ltb (fst b) (snd a) = true.
Proof.
  induction 1 as [|slt later Hs IH Hall]; simpl.
  - split; [discriminate | intros [a [b [[] _]]]].
  - rewrite Forall_forall in Hall.
    destruct (existsb (fun slt2 => PrimFloat.ltb (fst slt2) (snd slt)) later) eqn:E.
    + split; auto. intros _. apply existsb_exists in E.
      destruct E as [b [Hb L]]. exists slt, b. auto.
    + rewrite IH. split.
      * intros [a [b [Ha [Hb [L O]]]]]. exists a, b. auto.
      * intros [a [b [[Ea | Ha] [[Eb | Hb] [L O]]]]].
        -- subst. unfold slot_lt in L. rewrite slot_lt_irrefl in L. discriminate.
        -- subst a. assert (existsb (fun slt2 => PrimFloat.ltb (fst slt2) (snd slt))
                                     later = true)
             by (apply existsb_exists; eauto).
           congruence.
        -- subst b. pose proof (slot_lt_asym _ _ (Hall a Ha)) as A.
           unfold slot_lt in L. congruence.
        -- exists a, b. auto.
Qed.

Lemma checkForOverlappingTasks_true (tasks : list task) (machines : list string) :
  checkForOverlappingTasks tasks machines = true
  <-> exists m, In m machines
                /\ overlapAmong (sorted (slotsOf (compatibleWith m tasks))) = true.
Proof.
  induction machines as [|m rest IH]; simpl.
  - split; [discriminate | intros [m [[] _]]].
  - destruct (overlapAmong (sorted (slotsOf (compatibleWith m tasks)))) eqn:E.
    + split; auto. intros _. exists m. auto.
    + rewrite IH. split.
      * intros [m' [Hm Ho]]. exists m'. auto.
      * intros [m' [[Em | Hm] Ho]]; [subst; congruence | exists m'; auto].
Qed.

Lemma slotsOf_sorted (tasks : list task) :
  Forall (fun t => numericTimes t = true) tasks ->
  StronglySorted slot_lt (sorted (slotsOf tasks)).
Proof.
  intros H. apply sorted_StronglySorted.
  - apply slotLoop_Distinct. constructor.
  - apply Forall_forall. intros s Hs. apply slotsOf_In in Hs.
    destruct Hs as [ct [Hct E]]. subst s.
    rewrite Forall_forall in H. apply (H ct Hct).
Qed.

Lemma compatibleWith_numeric (m : string) (tasks : list task) :
  Forall (fun t => numericTimes t = true) tasks ->
  Forall (fun t => numericTimes t = true) (compatibleWith m tasks).
Proof.
  rewrite !Forall_forall. intros H t Ht. apply compatibleWith_In in Ht.
  apply H. tauto.
Qed.

(** C2, as the code has it. On tasks whose times are numbers,
    [checkForOverlappingTasks] returns [True] exactly when a machine of the
    list has two slots [(b1, e1)] and [(b2, e2)], the first below the second
    as tuples are ([b1 < b2], or [b1 == b2] and [e1 < e2]), with [e1 > b2].
    The comparison is strict: a slot that ends where the other begins is
    not found to overlap it. *)
Theorem checkForOverlappingTasks_iff (tasks : list task) (machines : list string) :
  Forall (fun t => numericTimes t = true) tasks ->
  (checkForOverlappingTasks tasks machines = true <-> tupleOverlap tasks machines)
  /\ (forall m t1 t2,
        In t1 (compatibleWith m tasks) -> In t2 (compatibleWith m tasks) ->
        PrimFloat.eqb (tEnd t1) (tBegin t2) = true ->
        PrimFloat.ltb (tBegin t2) (tEnd t1) = false).
Proof.
  intros Hn. split.
  - rewrite checkForOverlappingTasks_true. unfold tupleOverlap. split.
    + intros [m [Hm Ho]].
      apply overlapAmong_sorted in Ho;
        [|apply slotsOf_sorted, compatibleWith_numeric, Hn].
      destruct Ho as [a [b [Ha [Hb [L O]]]]].
      apply (proj1 (sorted_In _ _)), slotsOf_In in Ha. destruct Ha as [t1 [H1 E1]].
      apply (proj1 (sorted_In _ _)), slotsOf_In in Hb. destruct Hb as [t2 [H2 E2]].
      subst a b. exists m, t1, t2. apply slot_ltb_iff in L. simpl in *. auto 10.
    + intros [m [t1 [t2 [Hm [H1 [H2 [L O]]]]]]].
      exists m. split; auto.
      apply overlapAmong_sorted;
        [apply slotsOf_sorted, compatibleWith_numeric, Hn|].
      pose proof (compatibleWith_numeric m tasks Hn) as Hc.
      rewrite Forall_forall in Hc.
      destruct (slotLoop_covers _ [] t1 H1 (Hc t1 H1)) as [a [Ha Ea]].
      destruct (slotLoop_covers _ [] t2 H2 (Hc t2 H2)) as [b [Hb Eb]].
      exists a, b. repeat split.
      * apply sorted_In. exact Ha.
      * apply sorted_In. exact Hb.
      * unfold slot_lt. rewrite (slot_ltb_eqb a (slotOf t1) b (slotOf t2)); auto.
        apply slot_ltb_iff. exact L.
      * apply slot_eqb_iff in Ea, Eb. destruct Ea as [_ Ea], Eb as [Eb _].
        simpl in Ea, Eb.
        rewrite (F64.ltb_eqb_l _ _ _ Eb), (F64.ltb_eqb_r _ _ _ Ea). exact O.
  - intros m t1 t2 _ _ E.
    destruct (PrimFloat.ltb (tBegin t2) (tEnd t1)) eqn:L; auto.
    apply F64.ltb_not_eqb in L. rewrite F64.eqb_sym in L. congruence.
Qed.

(** ** The parser *)

Lemma parseLine_wrong_columns (pyfloat : string -> option float)
  (mode ln : string) :
  List.length (split " " ln) <> 5 ->
  parseLine pyfloat mode ln = Raise TypeError.
Proof.
  intros H. unfold parseLine, checkLineStandardCompliance.
  apply Nat.eqb_neq in H. rewrite H. reflexivity.
Qed.

Lemma parseLoop_failed (pyfloat : string -> option float) (mode : string)
  (f : list string) (allTasks : list task) (ln : string) :
  In ln f -> failed (parseLine pyfloat mode ln) ->
  failed (parseLoop pyfloat mode f allTasks).
Proof.
  revert allTasks. induction f as [|l rest IH]; simpl; intros acc Hin Hf.
  - contradiction.
  - destruct (parseLine pyfloat mode l) as [t|e] eqn:E; simpl.
    + destruct Hin as [Heq | Hin].
      * subst l. destruct Hf as [e Hf]. congruence.
      * apply IH; auto.
    + exists e. reflexivity.
Qed.

(** One task for each line, in the order of the file. *)
Lemma parseLoop_Ok (pyfloat : string -> option float) (mode : string)
  (f : list string) (allTasks out : list task) :
  parseLoop pyfloat mode f allTasks = Ok out ->
  exists parsed,
    out = allTasks ++ parsed
    /\ Forall2 (fun ln t => parseLine pyfloat mode ln = Ok t) f parsed.
Proof.
  revert allTasks. induction f as [|l rest IH]; simpl; intros acc H.
  - inversion H; subst. exists []. rewrite app_nil_r. auto.
  - destruct (parseLine pyfloat mode l) as [t|e] eqn:E; simpl in H; [|discriminate].
    apply IH in H. destruct H as [parsed [Hout Hall]].
    exists (t :: parsed). split.
    + rewrite Hout, <- app_assoc. reflexivity.
    + constructor; auto.
Qed.

Lemma parseLine_MTS_failed (pyfloat : string -> option float) (ln : string) :
  List.length (split "_" (nth 0 (split " " ln) "")) <> 3 ->
  failed (parseLine pyfloat "MTS" ln).
Proof.
  intros H. apply Nat.eqb_neq in H.
  unfold parseLine, checkLineStandardCompliance, checkMTSinfoCompliance, to_float.
  destruct (negb (List.length (split " " ln) =? 5)%nat); simpl; [eexists; reflexivity|].
  destruct (pyfloat (nth 1 (split " " ln) "")); simpl; [|eexists; reflexivity].
  destruct (pyfloat (nth 2 (split " " ln) "")); simpl; [|eexists; reflexivity].
  destruct (pyfloat (nth 4 (split " " ln) "")); simpl; [|eexists; reflexivity].
  rewrite H. simpl. eexists; reflexivity.
Qed.

(** C1, where the code leaves it. [split(" ")] cuts at every space, so the
    run of spaces that lines up the columns in the sample of the script's
    own header gives empty fields: the line has more than five fields and
    parsing ends in the [TypeError] of [checkLineStandardCompliance], in
    either mode and whatever [float] does. The same fields one space apart
    parse to one task. *)
Theorem parseTasks_aligned_columns :
  (forall pyfloat mode, parseTasks pyfloat mode [alignedLine] = Raise TypeError)
  /\ parseTasks decimal_float "MTS" [singleSpacedLine]
     = Ok [mkTask 0 0.833333 40.2 "B" "M0" "PU0" "A" []].
Proof.
  split.
  - intros pyfloat mode. unfold parseTasks. cbn [parseLoop].
    rewrite parseLine_wrong_columns; [reflexivity|].
    vm_compute. discriminate.
  - vm_compute. reflexivity.
Qed.

(** C8. In MTS mode a file with a line whose first field does not split at
    ["_"] into three parts is not parsed: the run fails. On a line of five
    fields with three numbers the failure is the exit of
    [checkMTSinfoCompliance], and when the first field does split into three
    parts they become the processing unit, the machine and the order of the
    task, in that order. *)
Theorem parseLine_MTS_info (pyfloat : string -> option float) (ln : string) :
  (List.length (split "_" (nth 0 (split " " ln) "")) <> 3 ->
   forall f, In ln f -> failed (parseTasks pyfloat "MTS" f))
  /\ (forall w0 w1 w2 w3 w4 b e bs,
        split " " ln = [w0; w1; w2; w3; w4] ->
        pyfloat w1 = Some b -> pyfloat w2 = Some e -> pyfloat w4 = Some bs ->
        parseLine pyfloat "MTS" ln
        = match split "_" w0 with
          | [pu; m; o] => Ok (mkTask b e bs o m pu w3 [])
          | _ => Raise (SystemExit 5
                   "MTS INFO DOES NOT ADHERE TO MY STANDARD: processingUnit_machine_order")
          end).
Proof.
  split.
  - intros H f Hin. unfold parseTasks.
    apply (parseLoop_failed pyfloat "MTS" f [] ln Hin).
    apply parseLine_MTS_failed. exact H.
  - intros w0 w1 w2 w3 w4 b e bs Hw H1 H2 H4.
    unfold parseLine, checkLineStandardCompliance, to_float. rewrite Hw. simpl.
    rewrite H1, H2, H4. simpl. unfold checkMTSinfoCompliance.
    destruct (split "_" w0) as [|pu [|m [|o [|x rest]]]]; reflexivity.
Qed.

(** ** The argument reader *)


Lemma readArgs_three (prog mode path : string) :
  snd (readArgs [prog; mode; path]) = Ok [prog; mode; path].
Proof.
  unfold readArgs. simpl.
  destruct (negb (mode =? "MTS")%string && negb (mode =? "SCH")%string);
    reflexivity.
Qed.


(** ** The claims on sample files *)

(** The sample files parse to the sample tasks. *)
Lemma sample_files_parse :
  parseTasks decimal_float "MTS" twoBatchesFile = Ok twoBatches
  /\ parseTasks decimal_float "MTS" duplicatedFile = Ok duplicated
  /\ parseTasks decimal_float "MTS" twoUnitsFile = Ok twoUnits
  /\ parseTasks decimal_float "SCH" sameBeginFile = Ok sameBegin
  /\ parseTasks decimal_float "SCH" touchingFile = Ok touching
  /\ parseTasks decimal_float "SCH" invertedFile = Ok [inverted].
Proof. repeat split; vm_compute; reflexivity. Qed.

(** Of the line given twice the first task is kept, by the rule of the
    specification; of two tasks whose [tBegin] differ in the last bit both
    are. *)
Lemma removeDuplicateTasks_first_occurrences_witness :
  removeDuplicateTasks duplicated = [mkTask 0 0.5 10 "B" "M0" "PU0" "A" []]
  /\ removeDuplicateTasks nearly = nearly.
Proof.
  split; symmetry.
  - apply (proj1 (proj2 (proj2 (proj2 (proj2 (proj2
             (removeDuplicateTasks_first_occurrences duplicated))))) _)).
    apply KeepsFirst_keep; [intros e []|].
    apply KeepsFirst_drop; [|constructor].
    exists (mkTask 0 0.5 10 "B" "M0" "PU0" "A" []).
    split; [left; reflexivity | repeat split].
  - apply (proj1 (proj2 (proj2 (proj2 (proj2 (proj2
             (removeDuplicateTasks_first_occurrences nearly))))) _)).
    apply KeepsFirst_keep; [intros e []|].
    apply KeepsFirst_keep; [|constructor].
    intros e [E | []] [Q _]. subst e. vm_compute in Q. discriminate.
Defined.

(** C2 as stated fails: two slots of a machine that begin together, [(0, 1)]
    and [(0, 2)], are reported, and neither begins before the other. *)
Lemma checkForOverlappingTasks_same_begin :
  parseTasks decimal_float "SCH" sameBeginFile = Ok sameBegin
  /\ checkForOverlappingTasks sameBegin ["M1"] = true
  /\ ~ specOverlap sameBegin ["M1"].
Proof.
  split; [vm_compute; reflexivity | split; [vm_compute; reflexivity|]].
  intros [m [t1 [t2 [Hm [H1 [H2 [L O]]]]]]].
  destruct Hm as [Hm | []]. subst m.
  destruct H1 as [H1 | [H1 | []]], H2 as [H2 | [H2 | []]]; subst t1 t2;
    vm_compute in L; discriminate.
Qed.

(** Slots that touch, [(0, 1)] and [(1, 2)], are not reported and are no
    overlap; slots that begin together, [(0, 1)] and [(0, 2)], are both. *)
Lemma checkForOverlappingTasks_iff_witness :
  checkForOverlappingTasks touching ["M1"] = false
  /\ ~ tupleOverlap touching ["M1"]
  /\ checkForOverlappingTasks sameBegin ["M1"] = true
  /\ tupleOverlap sameBegin ["M1"].
Proof.
  assert (Ht : Forall (fun t => numericTimes t = true) touching)
    by (repeat constructor).
  assert (Hs : Forall (fun t => numericTimes t = true) sameBegin)
    by (repeat constructor).
  destruct (checkForOverlappingTasks_iff touching ["M1"] Ht) as [[_ T] _].
  destruct (checkForOverlappingTasks_iff sameBegin ["M1"] Hs) as [[S _] _].
  split; [reflexivity | split; [|split; [reflexivity|]]].
  - intros H. apply T in H. vm_compute in H. discriminate.
  - apply S. reflexivity.
Defined.

(** C3 as stated fails: with a batch size that is not a number the sum is
    the NaN, which is the [batchSize] of the main task and is not [==] to
    itself. *)
Lemma parent_batchSize_nan :
  parseTasks literal_float "MTS" nanBatchFile = Ok nanBatch
  /\ consolidateSiblingTasks nanBatch ["M0"] = Ok [nanBatchMain]
  /\ subtasks nanBatchMain = nanBatch
  /\ PrimFloat.eqb (batchSize nanBatchMain)
                   (addedUp (map batchSize (subtasks nanBatchMain)))
     = false.
Proof. repeat split; vm_compute; reflexivity. Qed.

(** The main task over the two batches of [twoBatches], of batch size 30,
    and the one that [consolidateSiblingTasks] returns. *)
Lemma consolidateSiblingTasks_parents_witness :
  ((removeDuplicateTasks twoBatches = [twoBatchesMain]
    /\ In twoBatchesMain twoBatches)
   \/ (twoBatchesMain
       = withSubtasks (newMainTask "M0" (0%float, 0.5%float)
                                   (mkTask 0 0.5 10 "B" "M0" "PU0" "A" []))
                      (removeDuplicateTasks twoBatches)
       /\ subtasks twoBatchesMain = removeDuplicateTasks twoBatches
       /\ 2 <= List.length (subtasks twoBatchesMain)
       /\ batchSize twoBatchesMain
          = addedUp (map batchSize (subtasks twoBatchesMain))
       /\ (isNumber (addedUp (map batchSize (subtasks twoBatchesMain))) = true ->
           PrimFloat.eqb (batchSize twoBatchesMain)
                         (addedUp (map batchSize (subtasks twoBatchesMain)))
           = true)
       /\ Forall (sharesWith twoBatchesMain) (subtasks twoBatchesMain)
       /\ operation twoBatchesMain
          = ("MAIN_" ++ operation (mkTask 0 0.5 10 "B" "M0" "PU0" "A" []))%string))
  /\ exists m s first rest,
       In m ["M0"]
       /\ In s (slotsOf (compatibleWith m twoBatches))
       /\ concurrentAt s (compatibleWith m twoBatches) = first :: rest
       /\ consolidateSlot m (compatibleWith m twoBatches) s = Ok twoBatchesMain.
Proof.
  split.
  - exact (proj1 (consolidateSiblingTasks_parents twoBatches)
             "M0" (0%float, 0.5%float) (mkTask 0 0.5 10 "B" "M0" "PU0" "A" [])
             [mkTask 0 0.5 20 "B" "M0" "PU0" "A" []] twoBatchesMain
             eq_refl eq_refl).
  - apply (proj2 (consolidateSiblingTasks_parents twoBatches)
             ["M0"] [twoBatchesMain] twoBatchesMain).
    + repeat constructor.
    + vm_compute. reflexivity.
    + left. reflexivity.
Defined.

(** C6 as stated fails: two lines name one machine and slot under two
    processing units, and the consistency check ends the run. *)
Lemma consistency_check_fails :
  parseTasks decimal_float "MTS" twoUnitsFile = Ok twoUnits
  /\ consolidateSiblingTasks twoUnits ["M0"]
     = Raise (SystemExit 5 "SUBTASKS DO NOT MATCH MAIN TASK").
Proof. split; vm_compute; reflexivity. Qed.

(** On [twoUnits] the check stops at the task of the second unit. *)
Lemma consistency_check_processingUnit_witness :
  (forall cct, In cct twoUnits ->
     mismatch cct (newMainTask "M0" (0%float, 1%float)
                               (mkTask 0 1 10 "A" "M0" "PU0" "X" []))
     = negb (processingUnit cct =? "PU0")%string)
  /\ subsLoop (newMainTask "M0" (0%float, 1%float)
                           (mkTask 0 1 10 "A" "M0" "PU0" "X" []))
              twoUnits []
     = Raise (SystemExit 5 "SUBTASKS DO NOT MATCH MAIN TASK").
Proof.
  exact (consistency_check_processingUnit twoUnits "M0" (0%float, 1%float)
           (mkTask 0 1 10 "A" "M0" "PU0" "X" [])
           [mkTask 0 1 10 "B" "M0" "PU1" "X" []] eq_refl).
Defined.


(** Two and no underscores fail; [PU0_M0_B] names unit, machine and order. *)
Lemma parseLine_MTS_info_witness :
  failed (parseTasks decimal_float "MTS" [line "PU0_M0 0 0.5 A 10"])
  /\ failed (parseTasks decimal_float "MTS" [line "PU0M0B 0 0.5 A 10"])
  /\ parseLine decimal_float "MTS" (line "PU0_M0_B 0 0.5 A 10")
     = Ok (mkTask 0 0.5 10 "B" "M0" "PU0" "A" []).
Proof.
  split; [|split].
  - apply (proj1 (parseLine_MTS_info decimal_float (line "PU0_M0 0 0.5 A 10"))).
    + vm_compute. discriminate.
    + left. reflexivity.
  - apply (proj1 (parseLine_MTS_info decimal_float (line "PU0M0B 0 0.5 A 10"))).
    + vm_compute. discriminate.
    + left. reflexivity.
  - exact (proj2 (parseLine_MTS_info decimal_float (line "PU0_M0_B 0 0.5 A 10"))
             "PU0_M0_B" "0" "0.5" "A" (line "10") 0%float 0.5%float 10%float
             eq_refl eq_refl eq_refl eq_refl).
Defined.

(** C9 as stated fails: the parser takes a line whose second time is below
    the first, and the task it makes ends before it begins. *)
Lemma parseTasks_inverted_times :
  parseTasks decimal_float "SCH" invertedFile = Ok [inverted]
  /\ ordered inverted = false.
Proof. split; vm_compute; reflexivity. Qed.

(** The tasks of [twoBatches] and the main task over them are ordered. *)
Lemma ordered_preserved_witness :
  Forall (fun t => ordered t = true) (removeDuplicateTasks twoBatches)
  /\ Forall (fun p =>
               ordered p = true
               /\ (In p twoBatches
                   \/ Forall (fun sub => ordered sub = true) (subtasks p)))
            [twoBatchesMain].
Proof.
  assert (H : Forall (fun t => ordered t = true) twoBatches)
    by (repeat constructor).
  destruct (ordered_preserved twoBatches ["M0"] H) as [D C].
  split; [exact D|]. apply C. vm_compute. reflexivity.
Defined.

(** * Further properties of the script *)

(** ** The derived sets and the makespan *)

Lemma existsb_eqb_In (x : string) (l : list string) :
  existsb (String.eqb x) l = true <-> In x l.
Proof.
  rewrite existsb_exists. split.
  - intros [y [Hy E]]. apply String.eqb_eq in E. subst. exact Hy.
  - intros H. exists x. split; [exact H | apply String.eqb_refl].
Qed.

Lemma NoDup_snoc {A : Type} (l : list A) (x : A) :
  NoDup l -> ~ In x l -> NoDup (l ++ [x]).
Proof.
  induction l as [|a l IH]; simpl; intros H Hx.
  - constructor; [intros [] | constructor].
  - inversion H; subst. constructor.
    + rewrite in_app_iff. simpl. intros [Ha | [E | []]]; [auto | subst; auto].
    + apply IH; auto.
Qed.

Lemma uniqueLoop_In (field : task -> string) (tasks : list task)
  (unique : list string) (x : string) :
  In x (uniqueLoop field tasks unique)
  <-> In x unique \/ exists t, In t tasks /\ field t = x.
Proof.
  revert unique. induction tasks as [|t rest IH]; simpl; intros unique.
  - split; [auto | intros [H | [t [[] _]]]; exact H].
  - rewrite IH. destruct (existsb (String.eqb (field t)) unique) eqn:E; simpl.
    + apply existsb_eqb_In in E. split.
      * intros [H | [t' [Ht E']]]; [auto | right; exists t'; auto].
      * intros [H | [t' [[Et | Ht] E']]]; [auto | subst; auto | right; exists t'; auto].
    + rewrite in_app_iff. simpl. split.
      * intros [[H | [Ex | []]] | [t' [Ht E']]];
          [auto | right; exists t; auto | right; exists t'; auto].
      * intros [H | [t' [[Et | Ht] E']]];
          [auto | subst; auto | right; exists t'; auto].
Qed.

Lemma uniqueLoop_NoDup (field : task -> string) (tasks : list task)
  (unique : list string) :
  NoDup unique -> NoDup (uniqueLoop field tasks unique).
Proof.
  revert unique. induction tasks as [|t rest IH]; simpl; intros unique H; auto.
  apply IH. destruct (existsb (String.eqb (field t)) unique) eqn:E; simpl; auto.
  apply NoDup_snoc; auto. intros Hin. apply existsb_eqb_In in Hin. congruence.
Qed.

Lemma uniqueLoop_Subseq (field : task -> string) (tasks : list task)
  (unique : list string) :
  Subseq (uniqueLoop field tasks unique) (unique ++ map field tasks).
Proof.
  revert unique. induction tasks as [|t rest IH]; simpl; intros unique.
  - rewrite app_nil_r. apply Subseq_refl.
  - destruct (existsb (String.eqb (field t)) unique); simpl.
    + eapply Subseq_trans; [apply IH | apply Subseq_app_skip].
    + specialize (IH (unique ++ [field t])). rewrite <- app_assoc in IH. exact IH.
Qed.

Lemma nodup_skip (l1 l2 : list string) (x : string) :
  In x l2 ->
  nodup string_dec (l1 ++ x :: l2) = nodup string_dec (l1 ++ l2).
Proof.
  intros Hx. induction l1 as [|a l1 IH]; simpl.
  - destruct (in_dec string_dec x l2); [reflexivity | contradiction].
  - destruct (in_dec string_dec a (l1 ++ x :: l2)) as [I | I],
             (in_dec string_dec a (l1 ++ l2)) as [J | J].
    + exact IH.
    + exfalso. apply J. apply in_app_or in I. apply in_or_app.
      destruct I as [I | [E | I]]; [auto | subst; auto | auto].
    + exfalso. apply I. apply in_app_or in J. apply in_or_app.
      destruct J as [J | J]; [auto | right; right; exact J].
    + rewrite IH. reflexivity.
Qed.

Lemma firstAppearances_fixed (values : list string) :
  NoDup values -> firstAppearances values = values.
Proof.
  intros H. unfold firstAppearances.
  rewrite nodup_fixed_point by (apply NoDup_rev; exact H).
  apply rev_involutive.
Qed.

Lemma firstAppearances_skip (l1 l2 : list string) (x : string) :
  In x l1 -> firstAppearances (l1 ++ x :: l2) = firstAppearances (l1 ++ l2).
Proof.
  intros Hx. unfold firstAppearances. rewrite !rev_app_distr. simpl.
  rewrite <- app_assoc. simpl.
  rewrite nodup_skip by (apply in_rev in Hx; exact Hx). reflexivity.
Qed.

Lemma uniqueLoop_firstAppearances (field : task -> string) (tasks : list task)
  (unique : list string) :
  NoDup unique ->
  uniqueLoop field tasks unique = firstAppearances (unique ++ map field tasks).
Proof.
  revert unique. induction tasks as [|t rest IH]; simpl; intros unique H.
  - rewrite app_nil_r, firstAppearances_fixed; auto.
  - destruct (existsb (String.eqb (field t)) unique) eqn:E; simpl.
    + rewrite IH by exact H. symmetry. apply firstAppearances_skip.
      apply existsb_eqb_In. exact E.
    + rewrite IH.
      * rewrite <- app_assoc. reflexivity.
      * apply NoDup_snoc; auto. intros Hin. apply existsb_eqb_In in Hin. congruence.
Qed.

(** X1. [getMachines], [getOrders], [getProccessingUnits] and
    [getOperations] return the values of their field over the tasks, each
    once and in the order in which the tasks bring them: the result has no
    repeats, holds a value exactly when a task has it, is the list of the
    field over the tasks with entries left out, and is that list with every
    value at its first appearance only ([firstAppearances]). *)
Theorem derived_sets (tasks : list task) :
  (NoDup (getMachines tasks)
   /\ (forall m, In m (getMachines tasks) <-> exists t, In t tasks /\ machine t = m)
   /\ Subseq (getMachines tasks) (map machine tasks)
   /\ getMachines tasks = firstAppearances (map machine tasks))
  /\ (NoDup (getOrders tasks)
      /\ (forall o, In o (getOrders tasks) <-> exists t, In t tasks /\ order t = o)
      /\ Subseq (getOrders tasks) (map order tasks)
      /\ getOrders tasks = firstAppearances (map order tasks))
  /\ (NoDup (getProccessingUnits tasks)
      /\ (forall u, In u (getProccessingUnits tasks)
                    <-> exists t, In t tasks /\ processingUnit t = u)
      /\ Subseq (getProccessingUnits tasks) (map processingUnit tasks)
      /\ getProccessingUnits tasks = firstAppearances (map processingUnit tasks))
  /\ (NoDup (getOperations tasks)
      /\ (forall o, In o (getOperations tasks)
                    <-> exists t, In t tasks /\ operation t = o)
      /\ Subseq (getOperations tasks) (map operation tasks)
      /\ getOperations tasks = firstAppearances (map operation tasks)).
Proof.
  assert (G : forall field,
             NoDup (uniqueLoop field tasks [])
             /\ (forall x, In x (uniqueLoop field tasks [])
                           <-> exists t, In t tasks /\ field t = x)
             /\ Subseq (uniqueLoop field tasks []) (map field tasks)
             /\ uniqueLoop field tasks [] = firstAppearances (map field tasks)).
  { intros field. split; [|split; [|split]].
    - apply uniqueLoop_NoDup. constructor.
    - intros x. rewrite uniqueLoop_In. simpl. tauto.
    - apply (uniqueLoop_Subseq field tasks []).
    - apply (uniqueLoop_firstAppearances field tasks []). constructor. }
  repeat split; apply G.
Qed.

Lemma makeSpanLoop_bounds (tasks : list task) (ms : float) :
  isNumber ms = true ->
  isNumber (makeSpanLoop tasks ms) = true
  /\ PrimFloat.ltb (makeSpanLoop tasks ms) ms = false
  /\ (forall t, In t tasks -> PrimFloat.ltb (makeSpanLoop tasks ms) (tEnd t) = false)
  /\ (makeSpanLoop tasks ms = ms
      \/ exists t, In t tasks /\ makeSpanLoop tasks ms = tEnd t).
Proof.
  assert (below : forall r a b,
             isNumber a = true ->
             PrimFloat.ltb r a = false -> PrimFloat.ltb a b = false ->
             PrimFloat.ltb r b = false).
  { intros r a b Na Hra Hab. destruct (PrimFloat.ltb r b) eqn:L; auto.
    destruct (F64.ltb_isNumber _ _ L) as [Nr Nb].
    destruct (F64.total a b Na Nb) as [T | [T | T]].
    - congruence.
    - rewrite (F64.ltb_eqb_r r a b T) in Hra. congruence.
    - rewrite (F64.ltb_trans r b a L T) in Hra. discriminate. }
  revert ms. induction tasks as [|t rest IH]; simpl; intros ms N.
  - repeat split; auto.
    + destruct (PrimFloat.ltb ms ms) eqn:L; auto.
      apply F64.ltb_not_eqb in L. unfold isNumber in N. congruence.
    + intros t [].
  - destruct (PrimFloat.ltb ms (tEnd t)) eqn:L.
    + destruct (F64.ltb_isNumber _ _ L) as [_ Nt].
      destruct (IH (tEnd t) Nt) as [Nr [R1 [R2 R3]]].
      repeat split; auto.
      * apply (below _ (tEnd t)); auto. apply F64.ltb_asym. exact L.
      * intros t' [E | Ht]; [subst; exact R1 | auto].
      * right. destruct R3 as [E | [t' [Ht E]]]; [exists t | exists t']; auto.
    + destruct (IH ms N) as [Nr [R1 [R2 R3]]].
      repeat split; auto.
      * intros t' [E | Ht]; [subst | auto]. apply (below _ ms); auto.
      * destruct R3 as [E | [t' [Ht E]]]; [auto | right; exists t'; auto].
Qed.

(** X2. No task ends after the makespan: [getMakeSpan] is a number not
    below 0 and not below the [tEnd] of any task, and it is 0 or the [tEnd]
    of a task. A [tEnd] that is NaN or below 0 is passed over. *)
Theorem getMakeSpan_bounds (tasks : list task) :
  isNumber (getMakeSpan tasks) = true
  /\ PrimFloat.ltb (getMakeSpan tasks) 0 = false
  /\ (forall t, In t tasks -> PrimFloat.ltb (getMakeSpan tasks) (tEnd t) = false)
  /\ (getMakeSpan tasks = 0%float
      \/ exists t, In t tasks /\ getMakeSpan tasks = tEnd t).
Proof. apply makeSpanLoop_bounds. reflexivity. Qed.

(** ** Lines and fields *)

Lemma split_cons (sep : ascii) (s : string) : exists w ws, split sep s = w :: ws.
Proof.
  destruct s as [|c rest]; simpl; eauto.
  destruct (Ascii.eqb c sep); eauto.
  destruct (split sep rest); eauto.
Qed.

Lemma split_length (sep : ascii) (s : string) :
  List.length (split sep s) = S (countChar sep s).
Proof.
  induction s as [|c rest IH]; simpl; auto.
  destruct (Ascii.eqb c sep); simpl.
  - rewrite IH. reflexivity.
  - destruct (split_cons sep rest) as [w [ws E]]. rewrite E in *. exact IH.
Qed.

(** Joining the fields with the separator gives the string back. *)
Lemma split_concat (sep : ascii) (s : string) :
  String.concat (String sep EmptyString) (split sep s) = s.
Proof.
  induction s as [|c rest IH]; simpl; auto.
  destruct (split_cons sep rest) as [w [ws E]]. rewrite E in *.
  destruct (Ascii.eqb c sep) eqn:C.
  - apply Ascii.eqb_eq in C. subst c.
    change (String.concat (String sep "") ("" :: w :: ws))
      with (String sep (String.concat (String sep "") (w :: ws))).
    rewrite IH. reflexivity.
  - destruct ws as [|x xs].
    + simpl in *. rewrite IH. reflexivity.
    + change (String.concat (String sep "") (String c w :: x :: xs))
        with (String c (String.concat (String sep "") (w :: x :: xs))).
      rewrite IH. reflexivity.
Qed.

(** A character that a string has not is in none of its fields; the
    separator is in none in any case. *)
Lemma split_without (sep c : ascii) (s : string) :
  c = sep \/ countChar c s = 0 ->
  Forall (fun w => countChar c w = 0) (split sep s).
Proof.
  induction s as [|a rest IH]; simpl; intros H.
  - repeat constructor.
  - destruct (split_cons sep rest) as [w [ws E]]. rewrite E in *.
    destruct (Ascii.eqb a sep) eqn:A.
    + apply Ascii.eqb_eq in A. subst a. constructor; [reflexivity|].
      apply IH. destruct H as [H | H]; [auto|].
      right. destruct (Ascii.eqb sep c); [discriminate | exact H].
    + assert (Hc : Ascii.eqb a c = false).
      { destruct H as [H | H]; [subst; exact A|].
        destruct (Ascii.eqb a c); [discriminate | reflexivity]. }
      assert (Hr : c = sep \/ countChar c rest = 0).
      { destruct H as [H | H]; [auto | right]. rewrite Hc in H. exact H. }
      specialize (IH Hr). inversion IH; subst.
      constructor; auto. simpl. rewrite Hc. assumption.
Qed.

(** What a line that parses is made of. *)
Lemma parseLine_Ok (pyfloat : string -> option float) (mode ln : string)
  (t : task) :
  parseLine pyfloat mode ln = Ok t ->
  exists w0 w1 w2 w3 w4,
    split " " ln = [w0; w1; w2; w3; w4]
    /\ pyfloat w1 = Some (tBegin t)
    /\ pyfloat w2 = Some (tEnd t)
    /\ pyfloat w4 = Some (batchSize t)
    /\ operation t = w3
    /\ subtasks t = []
    /\ (((mode =? "MTS")%string = true
         /\ split "_" w0 = [processingUnit t; machine t; order t])
        \/ ((mode =? "MTS")%string = false
            /\ machine t = w0 /\ processingUnit t = "" /\ order t = "")).
Proof.
  unfold parseLine, checkLineStandardCompliance, to_float.
  destruct (split " " ln) as [|w0 [|w1 [|w2 [|w3 [|w4 [|w5 ws]]]]]];
    simpl; try discriminate.
  destruct (pyfloat w1) as [b|] eqn:F1; simpl; [|discriminate].
  destruct (pyfloat w2) as [e|] eqn:F2; simpl; [|discriminate].
  destruct (pyfloat w4) as [bs|] eqn:F4; simpl; [|discriminate].
  destruct (mode =? "MTS")%string.
  - unfold checkMTSinfoCompliance.
    destruct (split "_" w0) as [|pu [|m [|o [|x xs]]]] eqn:U;
      simpl; try discriminate.
    intros H. inversion H; subst. simpl.
    exists w0, w1, w2, w3, w4. repeat split; auto.
  - intros H. inversion H; subst. simpl.
    exists w0, w1, w2, w3, w4. repeat split; auto.
Qed.

(** X3. A line that parses has exactly four spaces: it is five fields one
    space apart. Fields 1, 2 and 4 are what [float] read the times and the
    batch size from, field 3 is the operation, and neither the operation
    nor the machine of the task has a space. *)
Theorem parseLine_four_spaces (pyfloat : string -> option float)
  (mode ln : string) (t : task) :
  parseLine pyfloat mode ln = Ok t ->
  countChar " " ln = 4
  /\ countChar " " (operation t) = 0
  /\ countChar " " (machine t) = 0
  /\ exists w0 w1 w2 w4,
       ln = (w0 ++ " " ++ w1 ++ " " ++ w2 ++ " " ++ operation t ++ " " ++ w4)%string
       /\ pyfloat w1 = Some (tBegin t)
       /\ pyfloat w2 = Some (tEnd t)
       /\ pyfloat w4 = Some (batchSize t).
Proof.
  intros H. apply parseLine_Ok in H.
  destruct H as [w0 [w1 [w2 [w3 [w4 [Hs [H1 [H2 [H4 [Ho [_ Hm]]]]]]]]]]].
  pose proof (split_length " " ln) as L. rewrite Hs in L. simpl in L.
  pose proof (split_concat " " ln) as C. rewrite Hs in C. simpl in C.
  pose proof (split_without " " " " ln (or_introl eq_refl)) as W.
  rewrite Hs in W.
  inversion W as [|? ? W0 W']; subst. inversion W' as [|? ? W1 W'']; subst.
  inversion W'' as [|? ? W2 W3']; subst. inversion W3' as [|? ? W3 _]; subst.
  split; [lia | split; [exact W3 | split]].
  - destruct Hm as [[_ Hm] | [_ [Hm _]]].
    + pose proof (split_without "_" " " w0 (or_intror W0)) as U.
      rewrite Hm in U. inversion U as [|? ? _ U']; subst.
      inversion U' as [|? ? Um _]; subst. exact Um.
    + rewrite Hm. exact W0.
  - exists w0, w1, w2, w4. repeat split; auto.
Qed.

(** X4. In MTS mode the first field of a line that parses is the processing
    unit, the machine and the order of the task joined by underscores, none
    of the three having an underscore of its own. In any other mode the
    first field is the machine as it stands, and the processing unit and
    the order are empty. *)
Theorem parseLine_first_field (pyfloat : string -> option float)
  (mode ln : string) (t : task) :
  parseLine pyfloat mode ln = Ok t ->
  (mode = "MTS" ->
   nth 0 (split " " ln) ""
   = (processingUnit t ++ "_" ++ machine t ++ "_" ++ order t)%string
   /\ countChar "_" (processingUnit t) = 0
   /\ countChar "_" (machine t) = 0
   /\ countChar "_" (order t) = 0)
  /\ (mode <> "MTS" ->
      machine t = nth 0 (split " " ln) ""
      /\ processingUnit t = "" /\ order t = "").
Proof.
  intros H. apply parseLine_Ok in H.
  destruct H as [w0 [w1 [w2 [w3 [w4 [Hs [_ [_ [_ [_ [_ Hm]]]]]]]]]]].
  rewrite Hs. simpl. split.
  - intros E. subst mode. destruct Hm as [[_ Hm] | [Hm _]]; [|discriminate].
    pose proof (split_concat "_" w0) as C. rewrite Hm in C. simpl in C.
    pose proof (split_without "_" "_" w0 (or_introl eq_refl)) as W.
    rewrite Hm in W.
    inversion W as [|? ? W0 W']; subst. inversion W' as [|? ? W1 W'']; subst.
    inversion W'' as [|? ? W2 _]; subst. auto.
  - intros N. destruct Hm as [[Hm _] | [_ Hm]]; [|exact Hm].
    apply String.eqb_eq in Hm. contradiction.
Qed.

(** X5. [parseTasks] returns a list of tasks exactly when every line of the
    file parses, and the list is then the tasks of the lines, one for each
    line and in their order. *)
Theorem parseTasks_lines (pyfloat : string -> option float) (mode : string)
  (f : list string) (out : list task) :
  parseTasks pyfloat mode f = Ok out
  <-> Forall2 (fun ln t => parseLine pyfloat mode ln = Ok t) f out.
Proof.
  unfold parseTasks. split.
  - intros H. apply parseLoop_Ok in H. destruct H as [parsed [E F]].
    simpl in E. subst. exact F.
  - intros F.
    assert (G : forall acc, parseLoop pyfloat mode f acc = Ok (acc ++ out)).
    { induction F as [|ln t f out Hl F IH]; simpl; intros acc.
      - rewrite app_nil_r. reflexivity.
      - rewrite Hl. simpl. rewrite IH, <- app_assoc. reflexivity. }
    apply (G []).
Qed.

(** X6. The run ends at the first line that does not parse, with the
    failure of that line, whatever follows it. *)
Theorem parseTasks_first_failure (pyfloat : string -> option float)
  (mode : string) (good : list string) (bad : string) (rest : list string)
  (e : failure) :
  Forall (fun ln => exists t, parseLine pyfloat mode ln = Ok t) good ->
  parseLine pyfloat mode bad = Raise e ->
  parseTasks pyfloat mode (good ++ bad :: rest) = Raise e.
Proof.
  intros G B. unfold parseTasks. generalize (@nil task).
  induction G as [|ln good [t Hl] G IH]; simpl; intros acc.
  - rewrite B. reflexivity.
  - rewrite Hl. simpl. apply IH.
Qed.

Lemma parseLine_four_spaces_witness :
  countChar " " singleSpacedLine = 4
  /\ countChar " " "A" = 0
  /\ countChar " " "M0" = 0
  /\ exists w0 w1 w2 w4,
       singleSpacedLine
       = (w0 ++ " " ++ w1 ++ " " ++ w2 ++ " " ++ "A" ++ " " ++ w4)%string
       /\ decimal_float w1 = Some 0%float
       /\ decimal_float w2 = Some 0.833333%float
       /\ decimal_float w4 = Some 40.2%float.
Proof.
  apply (parseLine_four_spaces decimal_float "MTS" singleSpacedLine
           (mkTask 0 0.833333 40.2 "B" "M0" "PU0" "A" [])).
  vm_compute. reflexivity.
Defined.

Lemma parseLine_first_field_witness :
  nth 0 (split " " singleSpacedLine) "" = "PU0_M0_B"
  /\ countChar "_" "PU0" = 0 /\ countChar "_" "M0" = 0 /\ countChar "_" "B" = 0.
Proof.
  assert (H : parseLine decimal_float "MTS" singleSpacedLine
              = Ok (mkTask 0 0.833333 40.2 "B" "M0" "PU0" "A" []))
    by (vm_compute; reflexivity).
  destruct (parseLine_first_field decimal_float "MTS" singleSpacedLine _ H)
    as [M _].
  exact (M eq_refl).
Defined.

Lemma parseTasks_first_failure_witness :
  parseTasks decimal_float "MTS" (twoBatchesFile ++ alignedLine :: duplicatedFile)
  = Raise TypeError.
Proof.
  apply (parseTasks_first_failure decimal_float "MTS" twoBatchesFile alignedLine
           duplicatedFile TypeError).
  - repeat constructor; eexists; vm_compute; reflexivity.
  - vm_compute. reflexivity.
Defined.

(** ** What the consolidator returns *)

Lemma slot_eqb_sym (a b : slot) : slot_eqb a b = slot_eqb b a.
Proof.
  unfold slot_eqb. rewrite (F64.eqb_sym (fst a)), (F64.eqb_sym (snd a)).
  reflexivity.
Qed.

Lemma slot_eqb_trans (a b c : slot) :
  slot_eqb a b = true -> slot_eqb b c = true -> slot_eqb a c = true.
Proof.
  rewrite !slot_eqb_iff. intros [A0 A1] [B0 B1].
  split; eapply F64.eqb_trans; eauto.
Qed.

Lemma sameFields_slot (t1 t2 : task) :
  sameFields t1 t2 = true ->
  machine t1 = machine t2 /\ slot_eqb (slotOf t1) (slotOf t2) = true.
Proof.
  unfold sameFields, slot_eqb, slotOf. simpl.
  rewrite !andb_true_iff, !String.eqb_eq. tauto.
Qed.

(** The group of a slot of the list is not empty when the times are
    numbers. *)
Lemma concurrentAt_cons (compatibleTasks : list task) (s : slot) :
  Forall (fun t => numericTimes t = true) compatibleTasks ->
  In s (slotsOf compatibleTasks) ->
  exists first rest, concurrentAt s compatibleTasks = first :: rest.
Proof.
  intros N Hs. apply slotsOf_In in Hs. destruct Hs as [ct [Hct E]]. subst s.
  assert (Hin : In ct (concurrentAt (slotOf ct) compatibleTasks)).
  { apply concurrentAt_In. split; auto.
    rewrite Forall_forall in N. apply (N ct Hct). }
  destruct (concurrentAt (slotOf ct) compatibleTasks) as [|first rest];
    [contradiction | eauto].
Qed.

(** A group of one processing unit gives a task, any other group the exit
    of the consistency check. *)
Lemma consolidateSlot_outcome (tasks : list task) (m : string) (s : slot)
  (first : task) (rest : list task) :
  concurrentAt s (compatibleWith m tasks) = first :: rest ->
  (forallb (fun cct => (processingUnit cct =? processingUnit first)%string)
           (first :: rest) = true
   /\ exists p, consolidateSlot m (compatibleWith m tasks) s = Ok p)
  \/ (forallb (fun cct => (processingUnit cct =? processingUnit first)%string)
              (first :: rest) = false
      /\ consolidateSlot m (compatibleWith m tasks) s
         = Raise (SystemExit 5 "SUBTASKS DO NOT MATCH MAIN TASK")).
Proof.
  intros G. unfold consolidateSlot. rewrite G.
  destruct rest as [|second rest].
  - left. simpl. rewrite String.eqb_refl. eauto.
  - rewrite subsLoop_spec.
    rewrite (existsb_mismatch_concurrent tasks m s first)
      by (intros c Hc; rewrite G; exact Hc).
    destruct (forallb _ (first :: second :: rest)); simpl.
    + left. split; auto.
      destruct (removeDuplicateTasks (first :: second :: rest)) as [|k [|k' ks]];
        eauto.
    + right. auto.
Qed.

Lemma slotsLoop_total (m : string) (compatibleTasks : list task)
  (slots : list slot) (reducedTasks : list task) :
  (forall s, In s slots -> exists p, consolidateSlot m compatibleTasks s = Ok p) ->
  exists out, slotsLoop m compatibleTasks slots reducedTasks = Ok out.
Proof.
  revert reducedTasks. induction slots as [|s rest IH]; simpl; intros acc H.
  - eauto.
  - destruct (H s (or_introl eq_refl)) as [p Hp]. rewrite Hp. simpl.
    apply IH. intros s' Hs'. apply H. auto.
Qed.

Lemma slotsLoop_Raise (m : string) (compatibleTasks : list task)
  (slots : list slot) (reducedTasks : list task) (e : failure) :
  slotsLoop m compatibleTasks slots reducedTasks = Raise e ->
  exists s, In s slots /\ consolidateSlot m compatibleTasks s = Raise e.
Proof.
  revert reducedTasks. induction slots as [|s rest IH]; simpl; intros acc H.
  - discriminate.
  - destruct (consolidateSlot m compatibleTasks s) as [p|e'] eqn:E; simpl in H.
    + apply IH in H. destruct H as [s' [Hs' He]]. eauto.
    + inversion H; subst. eauto.
Qed.

Lemma machinesLoop_total (tasks : list task) (machines : list string)
  (reducedTasks : list task) :
  (forall m s, In m machines -> In s (slotsOf (compatibleWith m tasks)) ->
     exists p, consolidateSlot m (compatibleWith m tasks) s = Ok p) ->
  exists out, machinesLoop tasks machines reducedTasks = Ok out.
Proof.
  revert reducedTasks. induction machines as [|m rest IH]; simpl; intros acc H.
  - eauto.
  - destruct (slotsLoop_total m (compatibleWith m tasks)
                (slotsOf (compatibleWith m tasks)) acc) as [acc' E].
    + intros s Hs. apply H; auto.
    + rewrite E. simpl. apply IH. intros m' s Hm Hs. apply H; auto.
Qed.

Lemma machinesLoop_Raise (tasks : list task) (machines : list string)
  (reducedTasks : list task) (e : failure) :
  machinesLoop tasks machines reducedTasks = Raise e ->
  exists m s,
    In m machines /\ In s (slotsOf (compatibleWith m tasks))
    /\ consolidateSlot m (compatibleWith m tasks) s = Raise e.
Proof.
  revert reducedTasks. induction machines as [|m rest IH]; simpl; intros acc H.
  - discriminate.
  - destruct (slotsLoop m (compatibleWith m tasks)
                (slotsOf (compatibleWith m tasks)) acc) as [acc'|e'] eqn:E;
      simpl in H.
    + apply IH in H. destruct H as [m' [s [Hm [Hs He]]]]. exists m', s. auto.
    + inversion H; subst. apply slotsLoop_Raise in E.
      destruct E as [s [Hs He]]. exists m, s. auto.
Qed.

Lemma machinesLoop_every_slot (tasks : list task) (machines : list string)
  (reducedTasks out : list task) :
  machinesLoop tasks machines reducedTasks = Ok out ->
  forall m s, In m machines -> In s (slotsOf (compatibleWith m tasks)) ->
    exists p, In p out /\ consolidateSlot m (compatibleWith m tasks) s = Ok p.
Proof.
  revert reducedTasks. induction machines as [|m rest IH]; simpl; intros acc H.
  - intros m s [].
  - destruct (slotsLoop m (compatibleWith m tasks)
                (slotsOf (compatibleWith m tasks)) acc) as [acc'|e] eqn:E;
      simpl in H; [|discriminate].
    intros m' s [Em | Hm] Hs.
    + subst m'. apply slotsLoop_Ok in E. destruct E as [added [Hacc Hall]].
      destruct (Forall2_In_l _ _ _ Hall s Hs) as [p [Hp Hc]].
      exists p. split; auto.
      destruct (machinesLoop_complete _ _ _ _ H) as [Hkeep _].
      apply Hkeep. subst acc'. apply in_or_app. auto.
    + apply (IH _ H); auto.
Qed.

(** X7. On tasks whose times are numbers [consolidateSiblingTasks] returns
    a list exactly when no slot of a machine of the list holds tasks of two
    processing units, and its one failure is the exit of the consistency
    check: the exit for a slot without tasks is never taken. *)
Theorem consolidateSiblingTasks_outcome (tasks : list task)
  (machines : list string) :
  Forall (fun t => numericTimes t = true) tasks ->
  ((exists out, consolidateSiblingTasks tasks machines = Ok out)
   <-> oneUnitPerSlot tasks machines)
  /\ (forall e, consolidateSiblingTasks tasks machines = Raise e ->
        e = SystemExit 5 "SUBTASKS DO NOT MATCH MAIN TASK").
Proof.
  intros N. unfold consolidateSiblingTasks.
  assert (Nm : forall m, Forall (fun t => numericTimes t = true)
                                (compatibleWith m tasks))
    by (intros m; apply compatibleWith_numeric, N).
  split; [split|].
  - intros [out H] m t1 t2 Hm H1 H2 E.
    pose proof (Nm m) as Nc. rewrite Forall_forall in Nc.
    destruct (slotLoop_covers _ [] t1 H1 (Nc t1 H1)) as [s [Hs Es]].
    destruct (machinesLoop_every_slot _ _ _ _ H m s Hm Hs) as [p [_ Hp]].
    destruct (concurrentAt_cons _ s (Nm m) Hs) as [first [rest G]].
    destruct (consolidateSlot_outcome tasks m s first rest G)
      as [[F _] | [_ R]]; [|congruence].
    rewrite forallb_forall in F.
    assert (G1 : In t1 (first :: rest)).
    { rewrite <- G. apply concurrentAt_In. split; auto.
      rewrite slot_eqb_sym. exact Es. }
    assert (G2 : In t2 (first :: rest)).
    { rewrite <- G. apply concurrentAt_In. split; auto.
      apply (slot_eqb_trans _ (slotOf t1)).
      - rewrite slot_eqb_sym. exact E.
      - rewrite slot_eqb_sym. exact Es. }
    apply F in G1, G2. apply String.eqb_eq in G1, G2. congruence.
  - intros U. apply machinesLoop_total. intros m s Hm Hs.
    destruct (concurrentAt_cons _ s (Nm m) Hs) as [first [rest G]].
    destruct (consolidateSlot_outcome tasks m s first rest G)
      as [[_ P] | [F _]]; [exact P|].
    assert (T : forallb (fun cct => (processingUnit cct =? processingUnit first)%string)
                        (first :: rest) = true).
    { apply forallb_forall. intros c Hc. apply String.eqb_eq.
      assert (Hf : In first (concurrentAt s (compatibleWith m tasks)))
        by (rewrite G; left; reflexivity).
      rewrite <- G in Hc. apply concurrentAt_In in Hc, Hf.
      destruct Hc as [Hc Ec], Hf as [Hf Ef].
      apply (U m c first Hm Hc Hf).
      apply (slot_eqb_trans _ s); [exact Ec | rewrite slot_eqb_sym; exact Ef]. }
    congruence.
  - intros e H. apply machinesLoop_Raise in H.
    destruct H as [m [s [Hm [Hs He]]]].
    destruct (concurrentAt_cons _ s (Nm m) Hs) as [first [rest G]].
    destruct (consolidateSlot_outcome tasks m s first rest G)
      as [[_ [p P]] | [_ R]]; congruence.
Qed.

(** X8. The consolidator loses no task: when it returns, every task of the
    input on a machine of the list, its times numbers, is a task of the
    result or a subtask of one, or has the seven fields of one of those. *)
Theorem consolidateSiblingTasks_carries (tasks : list task)
  (machines : list string) (out : list task) (t : task) :
  consolidateSiblingTasks tasks machines = Ok out ->
  In t tasks -> In (machine t) machines -> numericTimes t = true ->
  exists p, In p out /\ carries p t.
Proof.
  intros H Ht Hm N. unfold consolidateSiblingTasks in H.
  assert (Hc : In t (compatibleWith (machine t) tasks))
    by (apply compatibleWith_In; auto).
  destruct (slotLoop_covers _ [] t Hc N) as [s [Hs Es]].
  destruct (machinesLoop_every_slot _ _ _ _ H _ s Hm Hs) as [p [Hp Hp']].
  exists p. split; [exact Hp|].
  assert (Hg : In t (concurrentAt s (compatibleWith (machine t) tasks))).
  { apply concurrentAt_In. split; auto. rewrite slot_eqb_sym. exact Es. }
  apply removeDuplicateTasks_covers in Hg.
  apply consolidateSlot_Ok in Hp'.
  destruct Hp' as [R | [first [rest [G [_ [_ E]]]]]]; unfold carries.
  - rewrite R in Hg. destruct Hg as [[E | []] | F].
    + left. left. exact E.
    + right. simpl in *. destruct (sameFields p t); [reflexivity | discriminate].
  - rewrite G in Hg. subst p. simpl subtasks. destruct Hg as [I | F].
    + left. right. exact I.
    + right. simpl. destruct (sameFields _ t); [reflexivity | exact F].
Qed.

Lemma ForallOrdPairs_app {A : Type} (R : A -> A -> Prop) (l1 l2 : list A) :
  ForallOrdPairs R l1 -> ForallOrdPairs R l2 ->
  (forall a b, In a l1 -> In b l2 -> R a b) ->
  ForallOrdPairs R (l1 ++ l2).
Proof.
  induction 1 as [|a l1 Ha H1 IH]; simpl; intros H2 Hc; auto.
  constructor.
  - apply Forall_app. split; auto.
    apply Forall_forall. intros b Hb. apply Hc; auto.
  - apply IH; auto.
Qed.

Lemma DistinctSlots_pairs (slots : list slot) :
  DistinctSlots slots ->
  ForallOrdPairs (fun a b => slot_eqb a b = false) slots.
Proof.
  induction 1 as [|slots s Hd IH Hs].
  - constructor.
  - apply ForallOrdPairs_app; auto.
    + constructor; [constructor | constructor].
    + intros a b Ha [E | []]. subst b.
      rewrite slot_in_false in Hs. apply Hs. exact Ha.
Qed.

(** The task of a slot is on the machine of the slot and at a slot [==] to
    it. *)
Lemma consolidateSlot_place (tasks : list task) (m : string) (s : slot) (p : task) :
  consolidateSlot m (compatibleWith m tasks) s = Ok p ->
  machine p = m /\ (slotOf p = s \/ slot_eqb (slotOf p) s = true).
Proof.
  intros H. apply consolidateSlot_Ok in H.
  destruct H as [R | [first [rest [_ [_ [_ E]]]]]].
  - assert (Hin : In p (removeDuplicateTasks
                          (concurrentAt s (compatibleWith m tasks))))
      by (rewrite R; left; reflexivity).
    apply removeDuplicateTasks_In, concurrentAt_In in Hin.
    destruct Hin as [Hc Es]. apply compatibleWith_In in Hc. tauto.
  - subst p. simpl. destruct s; auto.
Qed.

Lemma place_apart (a b : slot) (p q : task) :
  slotOf p = a \/ slot_eqb (slotOf p) a = true ->
  slotOf q = b \/ slot_eqb (slotOf q) b = true ->
  slot_eqb a b = false ->
  slot_eqb (slotOf p) (slotOf q) = false.
Proof.
  intros Hp Hq D. destruct (slot_eqb (slotOf p) (slotOf q)) eqn:E; auto.
  assert (Pp : slot_eqb (slotOf p) (slotOf p) = true).
  { apply (slot_eqb_trans _ (slotOf q)); auto. rewrite slot_eqb_sym. exact E. }
  assert (Qq : slot_eqb (slotOf q) (slotOf q) = true).
  { apply (slot_eqb_trans _ (slotOf p)); auto. rewrite slot_eqb_sym. exact E. }
  assert (Ap : slot_eqb a (slotOf p) = true).
  { destruct Hp as [Hp | Hp]; [rewrite <- Hp; exact Pp|].
    rewrite slot_eqb_sym. exact Hp. }
  assert (Qb : slot_eqb (slotOf q) b = true).
  { destruct Hq as [Hq | Hq]; [rewrite <- Hq; exact Qq | exact Hq]. }
  assert (slot_eqb a b = true).
  { apply (slot_eqb_trans _ (slotOf p)); auto.
    apply (slot_eqb_trans _ (slotOf q)); auto. }
  congruence.
Qed.

Lemma slots_apart (tasks : list task) (m : string) (slots : list slot)
  (added : list task) :
  Forall2 (fun s p => consolidateSlot m (compatibleWith m tasks) s = Ok p)
          slots added ->
  ForallOrdPairs (fun a b => slot_eqb a b = false) slots ->
  ForallOrdPairs apart added.
Proof.
  induction 1 as [|s p slots added Hp Hall IH]; intros D.
  - constructor.
  - inversion D as [|? ? Ds D']; subst. constructor; auto.
    apply Forall_forall. intros q Hq.
    destruct (Forall2_In_r _ _ _ Hall q Hq) as [s' [Hs' Hq']].
    rewrite Forall_forall in Ds. right.
    apply consolidateSlot_place in Hp, Hq'.
    apply (place_apart s s'); try tauto. apply Ds. exact Hs'.
Qed.

Lemma machinesLoop_apart (tasks : list task) (machines : list string)
  (reducedTasks out : list task) :
  NoDup machines ->
  ForallOrdPairs apart reducedTasks ->
  (forall p, In p reducedTasks -> ~ In (machine p) machines) ->
  machinesLoop tasks machines reducedTasks = Ok out ->
  ForallOrdPairs apart out.
Proof.
  revert reducedTasks.
  induction machines as [|m rest IH]; simpl; intros acc Hn Ha Hm H.
  - inversion H; subst. exact Ha.
  - destruct (slotsLoop m (compatibleWith m tasks)
                (slotsOf (compatibleWith m tasks)) acc) as [acc'|e] eqn:E;
      simpl in H; [|discriminate].
    inversion Hn as [|? ? Hnot Hn']; subst.
    apply slotsLoop_Ok in E. destruct E as [added [Hacc Hall]]. subst acc'.
    assert (Hadded : forall q, In q added -> machine q = m).
    { intros q Hq. destruct (Forall2_In_r _ _ _ Hall q Hq) as [s [_ Hs]].
      apply consolidateSlot_place in Hs. tauto. }
    apply (IH (acc ++ added)); auto.
    + apply ForallOrdPairs_app; auto.
      * apply (slots_apart tasks m _ _ Hall).
        apply DistinctSlots_pairs, slotLoop_Distinct. constructor.
      * intros p q Hp Hq. left. rewrite (Hadded q Hq).
        intros Eq. apply (Hm p Hp). left. auto.
    + intros p Hp Hin. apply in_app_or in Hp. destruct Hp as [Hp | Hp].
      * apply (Hm p Hp). right. exact Hin.
      * rewrite (Hadded p Hp) in Hin. contradiction.
Qed.

Lemma apart_sameFields (p q : task) : apart p q -> sameFields p q = false.
Proof.
  intros H. destruct (sameFields p q) eqn:E; auto.
  apply sameFields_slot in E. destruct E as [Em Es].
  destruct H as [H | H]; congruence.
Qed.

Lemma apart_FirstSeen (l u : list task) :
  FirstSeen u -> ForallOrdPairs apart l ->
  (forall x y, In x u -> In y l -> sameFields x y = false) ->
  FirstSeen (u ++ l).
Proof.
  revert u. induction l as [|t r IH]; intros u Hu Hl Hc.
  - rewrite app_nil_r. exact Hu.
  - inversion Hl as [|? ? Ht Hr]; subst.
    replace (u ++ t :: r) with ((u ++ [t]) ++ r) by (rewrite <- app_assoc; reflexivity).
    apply IH; auto.
    + constructor; auto. apply findTaskInList_false.
      intros x Hx. apply Hc; [exact Hx | left; reflexivity].
    + intros x y Hx Hy. apply in_app_or in Hx. destruct Hx as [Hx | [E | []]].
      * apply Hc; [exact Hx | right; exact Hy].
      * subst x. apply apart_sameFields.
        rewrite Forall_forall in Ht. apply Ht. exact Hy.
Qed.

(** X9. On tasks whose times are numbers the consolidator returns one task
    for a machine and slot: when the machines of the list are distinct, any
    two tasks of the result are on different machines or in slots that are
    not [==]; and every task of the result is on a machine of the list. *)
Theorem consolidateSiblingTasks_apart (tasks : list task)
  (machines : list string) (out : list task) :
  Forall (fun t => numericTimes t = true) tasks ->
  NoDup machines ->
  consolidateSiblingTasks tasks machines = Ok out ->
  ForallOrdPairs apart out
  /\ forall p, In p out -> In (machine p) machines.
Proof.
  intros _ Hn H. split.
  - apply (machinesLoop_apart tasks machines [] out); auto. constructor.
  - intros p Hp. unfold consolidateSiblingTasks in H.
    destruct (machinesLoop_Ok _ _ _ _ H p Hp) as [[] | [m [s [Hm [_ Hc]]]]].
    apply consolidateSlot_place in Hc. destruct Hc as [E _]. rewrite E. exact Hm.
Qed.

Lemma consolidateSiblingTasks_pairs (tasks : list task)
  (machines : list string) (out : list task) :
  NoDup machines ->
  consolidateSiblingTasks tasks machines = Ok out ->
  ForallOrdPairs apart out.
Proof.
  intros Hn H.
  apply (machinesLoop_apart tasks machines [] out); auto. constructor.
Qed.

Lemma removeDuplicateTasks_apart (out : list task) :
  ForallOrdPairs apart out -> removeDuplicateTasks out = out.
Proof.
  intros A.
  unfold removeDuplicateTasks. destruct (List.length out <? 2)%nat; auto.
  apply (dedupLoop_fixed out []). simpl.
  apply (apart_FirstSeen out []); auto.
  - constructor.
  - intros x y [].
Qed.

(** X10. On tasks whose times are numbers the [removeDuplicateTasks] of
    line 356 has nothing to remove after the consolidator: on the result
    for distinct machines it returns the result. *)
Theorem consolidateSiblingTasks_no_duplicates (tasks : list task)
  (machines : list string) (out : list task) :
  Forall (fun t => numericTimes t = true) tasks ->
  NoDup machines ->
  consolidateSiblingTasks tasks machines = Ok out ->
  removeDuplicateTasks out = out.
Proof.
  intros _ Hn H. apply removeDuplicateTasks_apart.
  apply (consolidateSiblingTasks_pairs tasks machines); auto.
Qed.

(** ** Duplicates and the overlap checker *)

Lemma slot_in_true (s : slot) (slots : list slot) :
  slot_in s slots = true <-> exists x, In x slots /\ slot_eqb x s = true.
Proof. unfold slot_in. apply existsb_exists. Qed.

Lemma slot_in_app (s : slot) (l1 l2 : list slot) :
  slot_in s (l1 ++ l2) = slot_in s l1 || slot_in s l2.
Proof. unfold slot_in. apply existsb_app. Qed.

(** The slots of a machine are those of the first occurrences of its
    tasks. *)
Lemma slotLoop_firstOccurrences (m : string) (tasks earlier : list task)
  (slots : list slot) :
  (forall x y, In x earlier -> sameFields x y = true -> machine y = m ->
     slot_in (slotOf y) slots = true) ->
  slotLoop (compatibleWith m (firstOccurrences earlier tasks)) slots
  = slotLoop (compatibleWith m tasks) slots.
Proof.
  revert earlier slots.
  induction tasks as [|t r IH]; simpl; intros earlier slots I; auto.
  assert (step : forall slots',
             (forall y, slot_in (slotOf y) slots = true ->
                        slot_in (slotOf y) slots' = true) ->
             (forall y, sameFields t y = true -> machine y = m ->
                        slot_in (slotOf y) slots' = true) ->
             forall x y, In x (earlier ++ [t]) -> sameFields x y = true ->
                         machine y = m -> slot_in (slotOf y) slots' = true).
  { intros slots' Mono New x y Hx S Hm.
    apply in_app_or in Hx. destruct Hx as [Hx | [E | []]].
    - apply Mono. apply (I x y); auto.
    - subst x. apply New; auto. }
  destruct (findTaskInList t earlier) eqn:F.
  - apply findTaskInList_true in F. destruct F as [k [Hk Sk]].
    destruct (m =? machine t)%string eqn:M.
    + apply String.eqb_eq in M.
      assert (T : slot_in (slotOf t) slots = true) by (apply (I k t); auto).
      simpl. rewrite T. simpl. apply IH. apply step; auto.
      intros y S Hm. apply (I k y); auto. eapply sameFields_trans; eauto.
    + apply IH. apply step; auto.
      intros y S Hm. apply sameFields_slot in S. destruct S as [S _].
      apply String.eqb_neq in M. congruence.
  - simpl. destruct (m =? machine t)%string eqn:M.
    + simpl. apply IH. apply step.
      * intros y Hy. destruct (slot_in (slotOf t) slots); simpl; auto.
        rewrite slot_in_app, Hy. reflexivity.
      * intros y S _. apply sameFields_slot in S. destruct S as [_ S].
        destruct (slot_in (slotOf t) slots) eqn:T; simpl.
        -- apply slot_in_true in T. destruct T as [x [Hx Ex]].
           apply slot_in_true. exists x. split; auto.
           eapply slot_eqb_trans; eauto.
        -- rewrite slot_in_app. apply orb_true_iff. right.
           simpl. rewrite S. reflexivity.
    + apply IH. apply step; auto.
      intros y S Hm. apply sameFields_slot in S. destruct S as [S _].
      apply String.eqb_neq in M. congruence.
Qed.

Lemma slotsOf_removeDuplicateTasks (m : string) (tasks : list task) :
  slotsOf (compatibleWith m (removeDuplicateTasks tasks))
  = slotsOf (compatibleWith m tasks).
Proof.
  unfold removeDuplicateTasks. destruct (List.length tasks <? 2)%nat; auto.
  rewrite dedupLoop_prefix. simpl. unfold slotsOf.
  apply slotLoop_firstOccurrences. intros x y [].
Qed.

Lemma overlap_removeDuplicateTasks (tasks : list task) (machines : list string) :
  checkForOverlappingTasks (removeDuplicateTasks tasks) machines
  = checkForOverlappingTasks tasks machines.
Proof.
  induction machines as [|m rest IH]; simpl; auto.
  rewrite slotsOf_removeDuplicateTasks, IH. reflexivity.
Qed.

(** X11. Removing the duplicates changes neither the slots of a machine nor
    what the overlap checker finds. *)
Theorem checkForOverlappingTasks_removeDuplicateTasks (tasks : list task)
  (machines : list string) :
  (forall m, slotsOf (compatibleWith m (removeDuplicateTasks tasks))
             = slotsOf (compatibleWith m tasks))
  /\ checkForOverlappingTasks (removeDuplicateTasks tasks) machines
     = checkForOverlappingTasks tasks machines.
Proof.
  split.
  - intros m. apply slotsOf_removeDuplicateTasks.
  - apply overlap_removeDuplicateTasks.
Qed.

(** ** The task list of the chart *)

Lemma insertString_In (pivot : string) (run : list string) (x : string) :
  In x (insertString pivot run) <-> x = pivot \/ In x run.
Proof.
  induction run as [|p rest IH]; simpl.
  - intuition.
  - destruct (String.ltb pivot p); simpl; rewrite ?IH; intuition.
Qed.

Lemma insertString_NoDup (pivot : string) (run : list string) :
  NoDup run -> ~ In pivot run -> NoDup (insertString pivot run).
Proof.
  induction run as [|p rest IH]; simpl; intros H Hn.
  - constructor; [intros [] | constructor].
  - destruct (String.ltb pivot p).
    + constructor; auto.
    + inversion H; subst. constructor.
      * rewrite insertString_In. intros [E | Hin]; [subst; auto | auto].
      * apply IH; auto.
Qed.

Lemma sortedStrings_snoc (names : list string) (x : string) :
  sortedStrings (names ++ [x]) = insertString x (sortedStrings names).
Proof. unfold sortedStrings. rewrite fold_left_app. reflexivity. Qed.

Lemma sortedStrings_In (names : list string) (x : string) :
  In x (sortedStrings names) <-> In x names.
Proof.
  induction names as [|n names IH] using rev_ind.
  - reflexivity.
  - rewrite sortedStrings_snoc, insertString_In, IH, in_app_iff. simpl. intuition.
Qed.

Lemma sortedStrings_NoDup (names : list string) :
  NoDup names -> NoDup (sortedStrings names).
Proof.
  induction names as [|n names IH] using rev_ind; intros H.
  - constructor.
  - rewrite sortedStrings_snoc.
    pose proof (NoDup_remove _ _ _ H) as [H1 H2]. rewrite app_nil_r in H1, H2.
    apply insertString_NoDup; auto.
    intros Hin. apply (proj1 (sortedStrings_In _ _)) in Hin. contradiction.
Qed.

(** What the checker finds, it reports. *)
Lemma checkForOverlappingTasks_finds (tasks : list task) (machines : list string) :
  Forall (fun t => numericTimes t = true) tasks ->
  tupleOverlap tasks machines ->
  checkForOverlappingTasks tasks machines = true.
Proof.
  intros Hn [m [t1 [t2 [Hm [H1 [H2 [L O]]]]]]].
  apply checkForOverlappingTasks_true. exists m. split; auto.
  apply overlapAmong_sorted;
    [apply slotsOf_sorted, compatibleWith_numeric, Hn|].
  pose proof (compatibleWith_numeric m tasks Hn) as Hc.
  rewrite Forall_forall in Hc.
  destruct (slotLoop_covers _ [] t1 H1 (Hc t1 H1)) as [a [Ha Ea]].
  destruct (slotLoop_covers _ [] t2 H2 (Hc t2 H2)) as [b [Hb Eb]].
  exists a, b. repeat split.
  - apply sorted_In. exact Ha.
  - apply sorted_In. exact Hb.
  - unfold slot_lt. rewrite (slot_ltb_eqb a (slotOf t1) b (slotOf t2)); auto.
    apply slot_ltb_iff. exact L.
  - apply slot_eqb_iff in Ea, Eb. destruct Ea as [_ Ea], Eb as [Eb _].
    simpl in Ea, Eb.
    rewrite (F64.ltb_eqb_l _ _ _ Eb), (F64.ltb_eqb_r _ _ _ Ea). exact O.
Qed.

Lemma consolidateSiblingTasks_numeric (tasks : list task)
  (machines : list string) (out : list task) :
  Forall (fun t => numericTimes t = true) tasks ->
  consolidateSiblingTasks tasks machines = Ok out ->
  Forall (fun t => numericTimes t = true) out.
Proof.
  intros N H. rewrite Forall_forall in N. apply Forall_forall. intros p Hp.
  destruct (consolidateSiblingTasks_Ok _ _ _ _ H Hp)
    as [m [s [_ [Hs [_ [[_ Hin] | [first [rest [_ [_ [_ E]]]]]]]]]]].
  - apply N. exact Hin.
  - subst p. apply slotsOf_In in Hs. destruct Hs as [ct [Hct Es]]. subst s.
    apply compatibleWith_In in Hct. apply (N ct). tauto.
Qed.

(** What [chartTasks] returns, step by step. *)
Lemma chartTasks_Ok (pyfloat : string -> option float) (mode : string)
  (f : list string) (final : list task) :
  chartTasks pyfloat mode f = Ok final ->
  exists parsed consolidated,
    parseTasks pyfloat mode f = Ok parsed
    /\ (if (mode =? "MTS")%string
        then consolidateSiblingTasks parsed (sortedStrings (getMachines parsed))
        else Ok parsed) = Ok consolidated
    /\ final = removeDuplicateTasks consolidated
    /\ checkForOverlappingTasks final (sortedStrings (getMachines parsed)) = false.
Proof.
  unfold chartTasks.
  destruct (parseTasks pyfloat mode f) as [parsed|e]; simpl; [|discriminate].
  destruct (if (mode =? "MTS")%string
            then consolidateSiblingTasks parsed (sortedStrings (getMachines parsed))
            else Ok parsed) as [consolidated|e] eqn:C; simpl; [|discriminate].
  destruct (checkForOverlappingTasks (removeDuplicateTasks consolidated)
              (sortedStrings (getMachines parsed))) eqn:O; [discriminate|].
  intros H. inversion H; subst. exists parsed, consolidated. auto.
Qed.

Lemma getMachines_In (tasks : list task) (t : task) :
  In t tasks -> In (machine t) (sortedStrings (getMachines tasks)).
Proof.
  intros H. apply sortedStrings_In. unfold getMachines.
  apply uniqueLoop_In. right. exists t. auto.
Qed.

Lemma getMachines_NoDup (tasks : list task) :
  NoDup (sortedStrings (getMachines tasks)).
Proof. apply sortedStrings_NoDup, uniqueLoop_NoDup. constructor. Qed.

(** X12. The tasks that are drawn do not overlap: when the times read from
    the file are numbers and the run gets to the drawing, of two tasks of
    a machine, the first below the second as tuples are, the first ends
    before the second begins or as it begins. *)
Theorem chartTasks_no_overlap (pyfloat : string -> option float)
  (mode : string) (f : list string) (parsed final : list task) :
  parseTasks pyfloat mode f = Ok parsed ->
  Forall (fun t => numericTimes t = true) parsed ->
  chartTasks pyfloat mode f = Ok final ->
  forall t1 t2,
    In t1 final -> In t2 final -> machine t1 = machine t2 ->
    PrimFloat.ltb (tBegin t1) (tBegin t2) = true
    \/ (PrimFloat.eqb (tBegin t1) (tBegin t2) = true
        /\ PrimFloat.ltb (tEnd t1) (tEnd t2) = true) ->
    PrimFloat.ltb (tBegin t2) (tEnd t1) = false.
Proof.
  intros P N H t1 t2 H1 H2 M B.
  apply chartTasks_Ok in H.
  destruct H as [parsed' [consolidated [P' [C [E O]]]]].
  assert (parsed' = parsed) by congruence. subst parsed'.
  assert (Nc : Forall (fun t => numericTimes t = true) consolidated
               /\ forall p, In p consolidated ->
                    In (machine p) (sortedStrings (getMachines parsed))).
  { destruct (mode =? "MTS")%string.
    - split.
      + eapply consolidateSiblingTasks_numeric; eauto.
      + intros p Hp. unfold consolidateSiblingTasks in C.
        destruct (machinesLoop_Ok _ _ _ _ C p Hp) as [[] | [m [s [Hm [_ Hc]]]]].
        apply consolidateSlot_place in Hc. destruct Hc as [Em _].
        rewrite Em. exact Hm.
    - inversion C; subst. split; auto. intros p Hp. apply getMachines_In, Hp. }
  destruct Nc as [Nc Mc].
  assert (Nf : Forall (fun t => numericTimes t = true) final).
  { subst final. rewrite Forall_forall in Nc |- *. intros t Ht.
    apply Nc, removeDuplicateTasks_In, Ht. }
  destruct (PrimFloat.ltb (tBegin t2) (tEnd t1)) eqn:L; auto.
  assert (T : tupleOverlap final (sortedStrings (getMachines parsed))).
  { exists (machine t1), t1, t2. repeat split; auto.
    - apply Mc. subst final. apply removeDuplicateTasks_In. exact H1.
    - apply compatibleWith_In. auto.
    - apply compatibleWith_In. auto. }
  apply (checkForOverlappingTasks_finds _ _ Nf) in T. congruence.
Qed.

(** X13. For a file whose times are numbers: in MTS mode the tasks that are
    drawn are the tasks the consolidator returns for the machines of the
    file in their sorted order, unchanged by [removeDuplicateTasks]; in any
    other mode they are the tasks of the file without their duplicates. *)
Theorem chartTasks_drawn (pyfloat : string -> option float) (mode : string)
  (f : list string) (parsed final : list task) :
  parseTasks pyfloat mode f = Ok parsed ->
  Forall (fun t => numericTimes t = true) parsed ->
  chartTasks pyfloat mode f = Ok final ->
  (mode = "MTS" ->
   consolidateSiblingTasks parsed (sortedStrings (getMachines parsed)) = Ok final)
  /\ (mode <> "MTS" -> final = removeDuplicateTasks parsed).
Proof.
  intros P _ H. apply chartTasks_Ok in H.
  destruct H as [parsed' [consolidated [P' [C [E _]]]]].
  assert (parsed' = parsed) by congruence. subst parsed'. split.
  - intros M. subst mode. simpl in C. rewrite C. f_equal. subst final.
    symmetry. apply removeDuplicateTasks_apart.
    apply (consolidateSiblingTasks_pairs parsed
             (sortedStrings (getMachines parsed))); auto.
    apply getMachines_NoDup.
  - intros M. apply String.eqb_neq in M. rewrite M in C.
    inversion C; subst. reflexivity.
Qed.

(** ** The files of the chart *)

Lemma length_append (a b : string) :
  String.length (a ++ b) = String.length a + String.length b.
Proof. induction a as [|c a IH]; simpl; auto. Qed.

Lemma append_assoc (a b c : string) : ((a ++ b) ++ c = a ++ (b ++ c))%string.
Proof. induction a as [|x a IH]; simpl; [reflexivity | rewrite IH; reflexivity]. Qed.

Lemma upTo_append (a b : string) : upTo (String.length a) (a ++ b) = a.
Proof. induction a as [|c a IH]; simpl; [destruct b | rewrite IH]; reflexivity. Qed.

Lemma from_append (a b : string) : from (String.length a) (a ++ b) = b.
Proof. induction a as [|c a IH]; simpl; [destruct b | rewrite IH]; reflexivity. Qed.

Lemma upTo_zero (s : string) : upTo 0 s = "".
Proof. destruct s; reflexivity. Qed.

Lemma rfindLoop_without (c : ascii) (s : string) (i last : Z) :
  countChar c s = 0 -> rfindLoop c s i last = last.
Proof.
  revert i last. induction s as [|a s IH]; simpl; intros i last H; auto.
  destruct (Ascii.eqb a c); [discriminate|]. apply IH. exact H.
Qed.

Lemma rfindLoop_append (c : ascii) (a b : string) (i last : Z) :
  rfindLoop c (a ++ b) i last
  = rfindLoop c b (i + Z.of_nat (String.length a)) (rfindLoop c a i last).
Proof.
  revert i last. induction a as [|x a IH]; simpl String.length; intros i last.
  - simpl. rewrite Z.add_0_r. reflexivity.
  - simpl. rewrite IH. f_equal. lia.
Qed.

(** The last [c] of a string that ends a part [dir] of it, nothing after
    [dir] having a [c]. *)
Lemma rfind_directory (c : ascii) (dir rest : string) :
  dir = "" \/ (exists d, dir = (d ++ String c "")%string) ->
  countChar c rest = 0 ->
  (rfind c (dir ++ rest) + 1)%Z = Z.of_nat (String.length dir).
Proof.
  intros [E | [d E]] H; subst dir; unfold rfind.
  - simpl. rewrite rfindLoop_without by exact H. reflexivity.
  - rewrite rfindLoop_append, rfindLoop_without by exact H.
    rewrite rfindLoop_append. simpl. rewrite Ascii.eqb_refl.
    rewrite length_append. simpl. lia.
Qed.

(** X14. The names that [savefig] is called with are beside the file of the
    tasks: for a name made of a directory part, empty or ending in ["/"], a
    base name without ["/"] and six more characters, in ASCII and without
    ["/"], they are in the directory, ["./"] when the part is empty, the
    base name with [.png] and with [_legend.png]. The six characters are
    dropped whatever they are. *)
Theorem outputFiles_beside (dir base ext : string) :
  dir = "" \/ (exists d, dir = (d ++ "/")%string) ->
  countChar "/" base = 0 ->
  countChar "/" ext = 0 ->
  asciiOnly ext = true ->
  String.length ext = 6 ->
  outputFiles (dir ++ base ++ ext)
  = (((if (dir =? "")%string then "./" else dir) ++ base ++ ".png")%string,
     ((if (dir =? "")%string then "./" else dir) ++ base ++ "_legend.png")%string).
Proof.
  intros D B X _ L. unfold outputFiles, OUTPUT_FILE_EXTENSION.
  assert (Hl : String.length (dir ++ base ++ ext) - 6
               = String.length (dir ++ base)).
  { rewrite !length_append. lia. }
  rewrite Hl. rewrite <- (append_assoc dir base ext), upTo_append.
  rewrite (rfind_directory "/" dir base D B), Nat2Z.id, from_append.
  rewrite (append_assoc dir base ext).
  assert (Bx : countChar "/" (base ++ ext) = 0).
  { clear - B X. induction base as [|c base IH]; simpl in *; auto.
    destruct (Ascii.eqb c "/"); [discriminate | auto]. }
  rewrite (rfind_directory "/" dir (base ++ ext) D Bx), Nat2Z.id, upTo_append.
  destruct dir as [|c dir]; reflexivity.
Qed.

(** X15. A name of six characters or fewer without ["/"] leaves no base
    name: [savefig] is called with [./.png] for the chart and with
    [./_legend.png] for the legend, whatever the name is. *)
Theorem outputFiles_short (fileName : string) :
  String.length fileName <= 6 ->
  countChar "/" fileName = 0 ->
  outputFiles fileName = ("./.png", "./_legend.png").
Proof.
  intros L S. unfold outputFiles, OUTPUT_FILE_EXTENSION.
  replace (String.length fileName - 6) with 0 by lia.
  rewrite upTo_zero. unfold rfind at 1. simpl rfindLoop.
  unfold rfind. rewrite rfindLoop_without by exact S. reflexivity.
Qed.

(** ** Lists without duplicates, machines without shared slots *)

Lemma Subseq_length {A : Type} (l1 l2 : list A) :
  Subseq l1 l2 -> List.length l1 <= List.length l2.
Proof. induction 1; simpl; lia. Qed.

Lemma FirstSeen_pairs (l : list task) :
  FirstSeen l -> ForallOrdPairs (fun a b => sameFields a b = false) l.
Proof.
  induction 1 as [|u t Hu IH Hf].
  - constructor.
  - apply ForallOrdPairs_app; auto.
    + constructor; [constructor | constructor].
    + intros a b Ha [E | []]. subst b.
      rewrite findTaskInList_false in Hf. apply Hf. exact Ha.
Qed.

Lemma pairs_FirstSeen (l u : list task) :
  FirstSeen u ->
  ForallOrdPairs (fun a b => sameFields a b = false) l ->
  (forall x y, In x u -> In y l -> sameFields x y = false) ->
  FirstSeen (u ++ l).
Proof.
  revert u. induction l as [|t r IH]; intros u Hu Hl Hc.
  - rewrite app_nil_r. exact Hu.
  - inversion Hl as [|? ? Ht Hr]; subst.
    replace (u ++ t :: r) with ((u ++ [t]) ++ r) by (rewrite <- app_assoc; reflexivity).
    apply IH; auto.
    + constructor; auto. apply findTaskInList_false.
      intros x Hx. apply Hc; [exact Hx | left; reflexivity].
    + intros x y Hx Hy. apply in_app_or in Hx. destruct Hx as [Hx | [E | []]].
      * apply Hc; [exact Hx | right; exact Hy].
      * subst x. rewrite Forall_forall in Ht. apply Ht. exact Hy.
Qed.

(** X16. [removeDuplicateTasks] loses no task and removes nothing but
    duplicates: every task of the input is in the result or has the seven
    fields of a task of the result; the result is never longer than the
    input; and it is the input exactly when no two tasks of the input agree
    on the seven fields. *)
Theorem removeDuplicateTasks_keeps (tasks : list task) :
  (forall c, In c tasks ->
     In c (removeDuplicateTasks tasks)
     \/ findTaskInList c (removeDuplicateTasks tasks) = true)
  /\ List.length (removeDuplicateTasks tasks) <= List.length tasks
  /\ (removeDuplicateTasks tasks = tasks
      <-> ForallOrdPairs (fun a b => sameFields a b = false) tasks).
Proof.
  split; [|split].
  - intros c. apply removeDuplicateTasks_covers.
  - apply Subseq_length, removeDuplicateTasks_Subseq.
  - split.
    + intros E. apply FirstSeen_pairs. rewrite <- E.
      apply removeDuplicateTasks_FirstSeen.
    + intros P. unfold removeDuplicateTasks.
      destruct (List.length tasks <? 2)%nat; auto.
      apply (dedupLoop_fixed tasks []). simpl.
      apply (pairs_FirstSeen tasks []); auto.
      * constructor.
      * intros x y [].
Qed.

Lemma slotLoop_distinct_tasks (compatibleTasks : list task) (slots : list slot) :
  ForallOrdPairs (fun a b => slot_eqb (slotOf a) (slotOf b) = false)
                 compatibleTasks ->
  (forall s x, In s slots -> In x compatibleTasks ->
     slot_eqb s (slotOf x) = false) ->
  slotLoop compatibleTasks slots = slots ++ map slotOf compatibleTasks.
Proof.
  revert slots. induction compatibleTasks as [|t r IH]; simpl; intros slots P C.
  - rewrite app_nil_r. reflexivity.
  - inversion P as [|? ? Pt Pr]; subst.
    assert (S : slot_in (slotOf t) slots = false).
    { apply slot_in_false. intros s Hs. apply C; auto. }
    rewrite S. simpl. rewrite IH; auto.
    + rewrite <- app_assoc. reflexivity.
    + intros s x Hs Hx. apply in_app_or in Hs. destruct Hs as [Hs | [E | []]].
      * apply C; auto.
      * subst s. rewrite Forall_forall in Pt. apply Pt. exact Hx.
Qed.

Lemma concurrentAt_alone (compatibleTasks : list task) (t : task) :
  ForallOrdPairs (fun a b => slot_eqb (slotOf a) (slotOf b) = false)
                 compatibleTasks ->
  numericTimes t = true ->
  In t compatibleTasks ->
  concurrentAt (slotOf t) compatibleTasks = [t].
Proof.
  intros P N. unfold concurrentAt.
  induction P as [|a r Pa Pr IH]; simpl; intros Hin.
  - contradiction.
  - rewrite Forall_forall in Pa. destruct Hin as [E | Hin].
    + subst a. replace (slot_eqb (slotOf t) (slotOf t)) with true
        by (symmetry; exact N).
      f_equal. clear IH.
      induction r as [|c r IHr]; simpl; auto.
      rewrite slot_eqb_sym, (Pa c (or_introl eq_refl)).
      inversion Pr; subst. apply IHr; auto. intros x Hx. apply Pa. right. exact Hx.
    + rewrite (Pa t Hin). apply IH. exact Hin.
Qed.

Lemma slotsLoop_alone (m : string) (compatibleTasks l reducedTasks : list task) :
  (forall t, In t l -> concurrentAt (slotOf t) compatibleTasks = [t]) ->
  slotsLoop m compatibleTasks (map slotOf l) reducedTasks = Ok (reducedTasks ++ l).
Proof.
  revert reducedTasks. induction l as [|t r IH]; simpl; intros acc H.
  - rewrite app_nil_r. reflexivity.
  - unfold consolidateSlot. rewrite (H t (or_introl eq_refl)). simpl.
    rewrite IH by (intros x Hx; apply H; right; exact Hx).
    rewrite <- app_assoc. reflexivity.
Qed.

(** X17. Where no two tasks of a machine share a slot, the consolidator
    makes no main task: for times that are numbers it returns the tasks
    themselves, machine after machine as the list has them, the tasks of a
    machine in the order of the input. *)
Theorem consolidateSiblingTasks_single_tasks (tasks : list task)
  (machines : list string) :
  Forall (fun t => numericTimes t = true) tasks ->
  (forall m, In m machines ->
     ForallOrdPairs (fun a b => slot_eqb (slotOf a) (slotOf b) = false)
                    (compatibleWith m tasks)) ->
  consolidateSiblingTasks tasks machines
  = Ok (flat_map (fun m => compatibleWith m tasks) machines).
Proof.
  intros N P. unfold consolidateSiblingTasks.
  assert (G : forall acc,
             machinesLoop tasks machines acc
             = Ok (acc ++ flat_map (fun m => compatibleWith m tasks) machines)).
  { induction machines as [|m rest IH]; simpl; intros acc.
    - rewrite app_nil_r. reflexivity.
    - pose proof (P m (or_introl eq_refl)) as Pm.
      unfold slotsOf. rewrite slotLoop_distinct_tasks; auto; [|intros s x []].
      simpl. rewrite slotsLoop_alone.
      + simpl. rewrite IH by (intros m' Hm'; apply P; right; exact Hm').
        rewrite <- app_assoc. reflexivity.
      + intros t Ht. apply concurrentAt_alone; auto.
        pose proof (compatibleWith_numeric m tasks N) as Nc.
        rewrite Forall_forall in Nc. apply Nc. exact Ht. }
  apply (G []).
Qed.

(** ** Failures of a line and of the run *)

(** X18. A line fails in one of three ways, tried in this order: with
    [TypeError] when it has not exactly four spaces; with [ValueError] when
    one of the fields 1, 2 and 4 is not read by [float]; and, in MTS mode
    only, with the exit of [checkMTSinfoCompliance] when field 0 has not
    exactly two underscores. *)
Theorem parseLine_failures (pyfloat : string -> option float)
  (mode ln : string) (e : failure) :
  parseLine pyfloat mode ln = Raise e ->
  (countChar " " ln <> 4 /\ e = TypeError)
  \/ (countChar " " ln = 4
      /\ (pyfloat (nth 1 (split " " ln) "") = None
          \/ pyfloat (nth 2 (split " " ln) "") = None
          \/ pyfloat (nth 4 (split " " ln) "") = None)
      /\ e = ValueError)
  \/ (countChar " " ln = 4
      /\ pyfloat (nth 1 (split " " ln) "") <> None
      /\ pyfloat (nth 2 (split " " ln) "") <> None
      /\ pyfloat (nth 4 (split " " ln) "") <> None
      /\ mode = "MTS"
      /\ countChar "_" (nth 0 (split " " ln) "") <> 2
      /\ e = SystemExit 5
               "MTS INFO DOES NOT ADHERE TO MY STANDARD: processingUnit_machine_order").
Proof.
  unfold parseLine, checkLineStandardCompliance, checkMTSinfoCompliance, to_float.
  rewrite !split_length.
  destruct (S (countChar " " ln) =? 5)%nat eqn:C; simpl.
  - apply Nat.eqb_eq in C. assert (C4 : countChar " " ln = 4) by lia.
    destruct (pyfloat (nth 1 (split " " ln) "")) as [b|]; simpl;
      [|intros H; inversion H; right; left; auto].
    destruct (pyfloat (nth 2 (split " " ln) "")) as [e'|]; simpl;
      [|intros H; inversion H; right; left; auto].
    destruct (pyfloat (nth 4 (split " " ln) "")) as [bs|]; simpl;
      [|intros H; inversion H; right; left; auto 6].
    destruct (mode =? "MTS")%string eqn:M; [|discriminate].
    apply String.eqb_eq in M.
    destruct (countChar "_" (nth 0 (split " " ln) "") =? 2)%nat eqn:U; simpl;
      [discriminate|].
    apply Nat.eqb_neq in U. intros H. inversion H. right. right.
    repeat split; auto; discriminate.
  - apply Nat.eqb_neq in C. intros H. inversion H. left.
    split; [lia | reflexivity].
Qed.

Lemma parseTasks_leaves (pyfloat : string -> option float) (mode : string)
  (f : list string) (parsed : list task) :
  parseTasks pyfloat mode f = Ok parsed ->
  forall t, In t parsed -> subtasks t = [].
Proof.
  intros H t Ht. unfold parseTasks in H. apply parseLoop_Ok in H.
  destruct H as [out [E F]]. simpl in E. subst out.
  destruct (Forall2_In_r _ _ _ F t Ht) as [ln [_ Hl]].
  apply parseLine_Ok in Hl.
  destruct Hl as [w0 [w1 [w2 [w3 [w4 [_ [_ [_ [_ [_ [L _]]]]]]]]]]]. exact L.
Qed.

Lemma checkForOverlappingTasks_reports (tasks : list task)
  (machines : list string) :
  Forall (fun t => numericTimes t = true) tasks ->
  checkForOverlappingTasks tasks machines = true ->
  tupleOverlap tasks machines.
Proof.
  intros Hn H. apply checkForOverlappingTasks_true in H.
  destruct H as [m [Hm Ho]].
  apply overlapAmong_sorted in Ho;
    [|apply slotsOf_sorted, compatibleWith_numeric, Hn].
  destruct Ho as [a [b [Ha [Hb [L O]]]]].
  apply (proj1 (sorted_In _ _)), slotsOf_In in Ha. destruct Ha as [t1 [H1 E1]].
  apply (proj1 (sorted_In _ _)), slotsOf_In in Hb. destruct Hb as [t2 [H2 E2]].
  subst a b. exists m, t1, t2. apply slot_ltb_iff in L. simpl in *. auto 10.
Qed.

Lemma overlapping_tupleOverlap (tasks : list task) :
  overlapping tasks <-> tupleOverlap tasks (sortedStrings (getMachines tasks)).
Proof.
  unfold overlapping, tupleOverlap. split.
  - intros [t1 [t2 [H1 [H2 [M [B O]]]]]].
    exists (machine t1), t1, t2. repeat split; auto.
    + apply getMachines_In. exact H1.
    + apply compatibleWith_In. auto.
    + apply compatibleWith_In. auto.
  - intros [m [t1 [t2 [_ [H1 [H2 [B O]]]]]]].
    apply compatibleWith_In in H1, H2.
    exists t1, t2. repeat split; try tauto. destruct H1, H2. congruence.
Qed.

(** X19. In a mode other than MTS a file that parses to tasks whose times
    are numbers is drawn exactly when no two of its tasks overlap on a
    machine: the run then goes on with the tasks without their duplicates,
    and it ends with the overlap exit otherwise. *)
Theorem chartTasks_flat (pyfloat : string -> option float) (mode : string)
  (f : list string) (parsed : list task) :
  mode <> "MTS" ->
  parseTasks pyfloat mode f = Ok parsed ->
  Forall (fun t => numericTimes t = true) parsed ->
  (overlapping parsed ->
   chartTasks pyfloat mode f
   = Raise (SystemExit 5 "ERROR! Found overlapping tasks, check your input file!"))
  /\ (~ overlapping parsed ->
      chartTasks pyfloat mode f = Ok (removeDuplicateTasks parsed)).
Proof.
  intros M P N. apply String.eqb_neq in M.
  unfold chartTasks. rewrite P. simpl. rewrite M. simpl.
  rewrite overlap_removeDuplicateTasks. split.
  - intros O. apply overlapping_tupleOverlap in O.
    rewrite (checkForOverlappingTasks_finds _ _ N O). reflexivity.
  - intros O.
    destruct (checkForOverlappingTasks parsed (sortedStrings (getMachines parsed)))
      eqn:C; auto.
    apply (checkForOverlappingTasks_reports _ _ N) in C.
    apply overlapping_tupleOverlap in C. contradiction.
Qed.

(** X20. For a file whose times are numbers the tasks that are drawn are one
    level deep: each is a task of the file, without subtasks, or a main task
    whose subtasks are tasks of the file, without subtasks of their own. The
    order of every task of the file so drawn is one of [getOrders] on the
    file. *)
Theorem chartTasks_depth (pyfloat : string -> option float) (mode : string)
  (f : list string) (parsed final : list task) (p : task) :
  parseTasks pyfloat mode f = Ok parsed ->
  Forall (fun t => numericTimes t = true) parsed ->
  chartTasks pyfloat mode f = Ok final ->
  In p final ->
  (In p parsed /\ subtasks p = [] /\ In (order p) (getOrders parsed))
  \/ (2 <= List.length (subtasks p)
      /\ Forall (fun sub => In sub parsed /\ subtasks sub = []
                            /\ In (order sub) (getOrders parsed))
                (subtasks p)).
Proof.
  intros P _ H Hp. apply chartTasks_Ok in H.
  destruct H as [parsed' [consolidated [P' [C [E _]]]]].
  assert (parsed' = parsed) by congruence. subst parsed' final.
  apply removeDuplicateTasks_In in Hp.
  assert (L : forall t, In t parsed ->
                In t parsed /\ subtasks t = [] /\ In (order t) (getOrders parsed)).
  { intros t Ht. repeat split; auto.
    - apply (parseTasks_leaves pyfloat mode f parsed P t Ht).
    - unfold getOrders. apply uniqueLoop_In. right. exists t. auto. }
  destruct (mode =? "MTS")%string.
  - destruct (consolidateSiblingTasks_Ok _ _ _ _ C Hp)
      as [m [s [_ [_ [_ [[_ Hin] | [first [rest [G [_ [T E]]]]]]]]]]].
    + left. apply L. exact Hin.
    + right. subst p. simpl. split; [exact T|].
      apply Forall_forall. intros sub Hsub. apply L.
      apply removeDuplicateTasks_In in Hsub. rewrite <- G in Hsub.
      apply concurrentAt_In in Hsub. destruct Hsub as [Hsub _].
      apply compatibleWith_In in Hsub. tauto.
  - inversion C; subst. left. apply L. exact Hp.
Qed.

(** ** The further properties on sample files *)

(** [twoBatches] has one unit in its slot, and is consolidated. *)
Lemma consolidateSiblingTasks_outcome_witness :
  ((exists out, consolidateSiblingTasks twoBatches ["M0"] = Ok out)
   <-> oneUnitPerSlot twoBatches ["M0"])
  /\ (forall e, consolidateSiblingTasks twoBatches ["M0"] = Raise e ->
        e = SystemExit 5 "SUBTASKS DO NOT MATCH MAIN TASK").
Proof.
  apply (consolidateSiblingTasks_outcome twoBatches ["M0"]).
  repeat constructor.
Defined.

(** The second batch is a subtask of the main task. *)
Lemma consolidateSiblingTasks_carries_witness :
  exists p, In p [twoBatchesMain]
            /\ carries p (mkTask 0 0.5 20 "B" "M0" "PU0" "A" []).
Proof.
  apply (consolidateSiblingTasks_carries twoBatches ["M0"]).
  - vm_compute. reflexivity.
  - right. left. reflexivity.
  - left. reflexivity.
  - reflexivity.
Defined.

Lemma consolidateSiblingTasks_apart_witness :
  ForallOrdPairs apart [twoBatchesMain]
  /\ forall p, In p [twoBatchesMain] -> In (machine p) ["M0"].
Proof.
  apply (consolidateSiblingTasks_apart twoBatches ["M0"]).
  - repeat constructor.
  - repeat constructor. intros [].
  - vm_compute. reflexivity.
Defined.

Lemma consolidateSiblingTasks_no_duplicates_witness :
  removeDuplicateTasks [twoBatchesMain] = [twoBatchesMain].
Proof.
  apply (consolidateSiblingTasks_no_duplicates twoBatches ["M0"]).
  - repeat constructor.
  - repeat constructor. intros [].
  - vm_compute. reflexivity.
Defined.

(** The two tasks of [touching]: the first ends as the second begins. *)
Lemma chartTasks_no_overlap_witness :
  PrimFloat.ltb (tBegin (mkTask 1 2 10 "" "M1" "" "B" []))
                (tEnd (mkTask 0 1 10 "" "M1" "" "A" [])) = false.
Proof.
  apply (chartTasks_no_overlap decimal_float "SCH" touchingFile touching touching).
  - vm_compute. reflexivity.
  - repeat constructor.
  - vm_compute. reflexivity.
  - left. reflexivity.
  - right. left. reflexivity.
  - reflexivity.
  - left. reflexivity.
Defined.

Lemma chartTasks_drawn_witness :
  ("MTS" = "MTS" ->
   consolidateSiblingTasks twoBatches (sortedStrings (getMachines twoBatches))
   = Ok [twoBatchesMain])
  /\ ("MTS" <> "MTS" -> [twoBatchesMain] = removeDuplicateTasks twoBatches).
Proof.
  apply (chartTasks_drawn decimal_float "MTS" twoBatchesFile).
  - vm_compute. reflexivity.
  - repeat constructor.
  - vm_compute. reflexivity.
Defined.

Lemma outputFiles_beside_witness :
  outputFiles "results/run1/sample.gantt"
  = ("results/run1/sample.png", "results/run1/sample_legend.png").
Proof.
  apply (outputFiles_beside "results/run1/" "sample" ".gantt").
  - right. exists "results/run1". reflexivity.
  - reflexivity.
  - reflexivity.
  - reflexivity.
  - reflexivity.
Defined.

Lemma outputFiles_short_witness :
  outputFiles "a.txt" = ("./.png", "./_legend.png").
Proof.
  apply (outputFiles_short "a.txt").
  - simpl. lia.
  - reflexivity.
Defined.

(** The two tasks of [touching] are in two slots and come back as they
    are. *)
Lemma consolidateSiblingTasks_single_tasks_witness :
  consolidateSiblingTasks touching ["M1"]
  = Ok (flat_map (fun m => compatibleWith m touching) ["M1"]).
Proof.
  apply (consolidateSiblingTasks_single_tasks touching ["M1"]).
  - repeat constructor.
  - intros m [E | []]. subst m. repeat constructor.
Defined.

Lemma parseLine_failures_witness :
  (countChar " " alignedLine <> 4 /\ TypeError = TypeError)
  \/ (countChar " " alignedLine = 4
      /\ (decimal_float (nth 1 (split " " alignedLine) "") = None
          \/ decimal_float (nth 2 (split " " alignedLine) "") = None
          \/ decimal_float (nth 4 (split " " alignedLine) "") = None)
      /\ TypeError = ValueError)
  \/ (countChar " " alignedLine = 4
      /\ decimal_float (nth 1 (split " " alignedLine) "") <> None
      /\ decimal_float (nth 2 (split " " alignedLine) "") <> None
      /\ decimal_float (nth 4 (split " " alignedLine) "") <> None
      /\ "SCH" = "MTS"
      /\ countChar "_" (nth 0 (split " " alignedLine) "") <> 2
      /\ TypeError
         = SystemExit 5
             "MTS INFO DOES NOT ADHERE TO MY STANDARD: processingUnit_machine_order").
Proof.
  apply (parseLine_failures decimal_float "SCH" alignedLine TypeError).
  vm_compute. reflexivity.
Defined.

(** [sameBegin] is not drawn, [touching] is. *)
Lemma chartTasks_flat_witness :
  chartTasks decimal_float "SCH" sameBeginFile
  = Raise (SystemExit 5 "ERROR! Found overlapping tasks, check your input file!")
  /\ (~ overlapping touching ->
      chartTasks decimal_float "SCH" touchingFile = Ok (removeDuplicateTasks touching)).
Proof.
  assert (D : "SCH" <> "MTS") by discriminate.
  assert (Ns : Forall (fun t => numericTimes t = true) sameBegin)
    by (repeat constructor).
  assert (Nt : Forall (fun t => numericTimes t = true) touching)
    by (repeat constructor).
  split.
  - apply (chartTasks_flat decimal_float "SCH" sameBeginFile sameBegin D);
      [vm_compute; reflexivity | exact Ns |].
    exists (mkTask 0 1 10 "" "M1" "" "A" []), (mkTask 0 2 10 "" "M1" "" "B" []).
    repeat split.
    + left. reflexivity.
    + right. left. reflexivity.
    + right. split; reflexivity.
  - apply (chartTasks_flat decimal_float "SCH" touchingFile touching D);
      [vm_compute; reflexivity | exact Nt].
Defined.

Lemma chartTasks_depth_witness :
  (In twoBatchesMain twoBatches /\ subtasks twoBatchesMain = []
   /\ In (order twoBatchesMain) (getOrders twoBatches))
  \/ (2 <= List.length (subtasks twoBatchesMain)
      /\ Forall (fun sub => In sub twoBatches /\ subtasks sub = []
                            /\ In (order sub) (getOrders twoBatches))
                (subtasks twoBatchesMain)).
Proof.
  apply (chartTasks_depth decimal_float "MTS" twoBatchesFile twoBatches
           [twoBatchesMain]).
  - vm_compute. reflexivity.
  - repeat constructor.
  - vm_compute. reflexivity.
  - left. reflexivity.
Defined.

(** * The run of the script *)







